(** * Product catalog: slug derivation, lookups and the HTTP handlers

    Shallow embedding of
    - [slugify]            (packages/lib/backend-server, backend-utils),
    - [getProducts], [getProductById], [getProductBySlug]
                           (packages/features/products/backend/src/data.ts),
    - the three route handlers of [productRoutes],
    - [formatPrice]        (packages/features/products/frontend/src/lib/utils).

    JavaScript strings are sequences of UTF-16 code units; a regular
    expression without the [u] flag works on code units.  Numbers are
    IEEE-754 doubles, taken from the primitive floats of the standard
    library. *)

From Stdlib Require Import Ascii String DecimalString DecimalN.
From Stdlib Require Import ZArith List Bool Lia Floats.
From Equations Require Import Equations.
Import ListNotations.

Local Open Scope Z_scope.

(** ** Strings *)

Definition code_unit := Z.
Definition jsstring := list code_unit.

(** A string literal of the source, read code unit by code unit (the
    literals of the program are all ASCII). *)
Definition js (s : string) : jsstring :=
  map (fun a => Z.of_N (N_of_ascii a)) (list_ascii_of_string s).

Definition inRange (lo hi c : code_unit) : bool := (lo <=? c) && (c <=? hi).

(** [\s] of a regular expression and the characters removed by
    [String.prototype.trim]: WhiteSpace and LineTerminator of ECMA-262. *)
Definition isWhiteSpace (c : code_unit) : bool :=
  inRange 9 13 c            (* TAB, LF, VT, FF, CR *)
  || (c =? 32)              (* SPACE *)
  || (c =? 160)             (* NO-BREAK SPACE *)
  || (c =? 5760)            (* U+1680 *)
  || inRange 8192 8202 c    (* U+2000 .. U+200A *)
  || (c =? 8232)            (* U+2028 LINE SEPARATOR *)
  || (c =? 8233)            (* U+2029 PARAGRAPH SEPARATOR *)
  || (c =? 8239)            (* U+202F *)
  || (c =? 8287)            (* U+205F *)
  || (c =? 12288)           (* U+3000 *)
  || (c =? 65279).          (* U+FEFF *)

Definition isUpper (c : code_unit) : bool := inRange 65 90 c.
Definition isLower (c : code_unit) : bool := inRange 97 122 c.
Definition isDigit (c : code_unit) : bool := inRange 48 57 c.
Definition isUnderscore (c : code_unit) : bool := c =? 95.
Definition isHyphen (c : code_unit) : bool := c =? 45.

(** [\w] is [A-Za-z0-9_]. *)
Definition isWord (c : code_unit) : bool :=
  isUpper c || isLower c || isDigit c || isUnderscore c.

Definition isAscii (c : code_unit) : bool := inRange 0 127 c.

(** What [toLowerCase] does to an ASCII code unit. *)
Definition asciiLower (c : code_unit) : code_unit :=
  if isUpper c then c + 32 else c.

Fixpoint dropWhile (p : code_unit -> bool) (s : jsstring) : jsstring :=
  match s with
  | [] => []
  | c :: s' => if p c then dropWhile p s' else s
  end.

Definition trimStart (s : jsstring) : jsstring := dropWhile isWhiteSpace s.
Definition trimEnd (s : jsstring) : jsstring :=
  rev (dropWhile isWhiteSpace (rev s)).
Definition trim (s : jsstring) : jsstring := trimEnd (trimStart s).

(** ** The regular expressions of [slugify]

    Two shapes occur: a single character class, and a class under [+].
    Neither can match the empty string. *)
Inductive regex :=
| Class (p : code_unit -> bool)
| Plus (p : code_unit -> bool).

Fixpoint takeWhile (p : code_unit -> bool) (s : jsstring) : jsstring :=
  match s with
  | [] => []
  | c :: s' => if p c then c :: takeWhile p s' else []
  end.

(** The length of the match of [r] that starts at the head of [s]; 0 when
    there is none.  [+] is greedy: it takes the longest run. *)
Definition matchLength (r : regex) (s : jsstring) : nat :=
  match r with
  | Class p => match s with
               | c :: _ => if p c then 1%nat else 0%nat
               | [] => 0%nat
               end
  | Plus p => length (takeWhile p s)
  end.

(** [s.replace(r, rep)] for a global [r]: the string is scanned from the
    left; where [r] matches, the match is replaced and the scan goes on
    behind it; elsewhere one code unit is copied. *)
Equations? replace (r : regex) (rep : jsstring) (s : jsstring) : jsstring
  by wf (length s) lt :=
  replace r rep [] := [];
  replace r rep (c :: s') with matchLength r (c :: s') := {
    | O => c :: replace r rep s';
    | S k => rep ++ replace r rep (skipn k s') }.
Proof.
  rewrite length_skipn. lia.
Qed.

Definition specialChars : regex :=
  Class (fun c => negb (isWord c || isWhiteSpace c || isHyphen c)).
Definition whiteSpaces : regex := Plus isWhiteSpace.
Definition hyphens : regex := Plus isHyphen.

(** ** [slugify] (backend-utils) *)

(** [String.prototype.toLowerCase] follows the Unicode case tables, which
    are not part of the program: the development is parametric in it. *)
Class CaseTables := toLowerCase : jsstring -> jsstring.

Definition slugify `{CaseTables} (text : jsstring) : jsstring :=
  replace hyphens (js "-")                  (* Multiple hyphens to single *)
    (replace whiteSpaces (js "-")           (* Spaces to hyphens *)
      (replace specialChars (js "")         (* Remove special chars *)
        (trim (toLowerCase text)))).

(** ** Numbers *)

Definition number := float.

(** [x === y] on numbers: IEEE equality, so [NaN] equals nothing and the
    two zeros are equal. *)
Definition strictEq (x y : number) : bool := PrimFloat.eqb x y.

(** The double nearest to an integer (ties to even), the conversion written
    F(x) in ECMA-262. *)
Definition numberOfZ (z : Z) : number :=
  SF2Prim (binary_normalize prec emax z 0 false).

(** [===] on strings compares the code units. *)
Fixpoint stringEq (s t : jsstring) : bool :=
  match s, t with
  | [], [] => true
  | c :: s', d :: t' => (c =? d) && stringEq s' t'
  | _, _ => false
  end.

(** *** [parseInt(string, radix)], ECMA-262 19.2.5 *)

(** The value of a code unit as a digit: [0-9], then [a-z] or [A-Z] for
    10 to 35. *)
Definition digitValue (c : code_unit) : option Z :=
  if isDigit c then Some (c - 48)
  else if isLower c then Some (c - 97 + 10)
  else if isUpper c then Some (c - 65 + 10)
  else None.

Definition isRadixDigit (R : Z) (c : code_unit) : bool :=
  match digitValue c with
  | Some d => d <? R
  | None => false
  end.

(** The integer written by a string of radix-[R] digits. *)
Definition mathInt (R : Z) (digits : jsstring) : Z :=
  fold_left
    (fun acc c => acc * R + match digitValue c with Some d => d | None => 0 end)
    digits 0.

(** A leading sign, removed. *)
Definition dropSign (s : jsstring) : jsstring :=
  match s with
  | c :: s' => if (c =? 43) || (c =? 45) then s' else s
  | [] => s
  end.

(** For radix 10 and more than 20 significant digits the standard lets an
    implementation replace the digits behind the 20th by zeros; this is
    the exact value, which the standard allows as well. *)
Definition parseInt (string : jsstring) (radix : Z) : number :=
  let str := trimStart string in
  let sign := match str with c :: _ => if c =? 45 then -1 else 1 | [] => 1 end in
  let str := dropSign str in
  if negb (radix =? 0) && ((radix <? 2) || (36 <? radix)) then nan
  else
    let stripPrefix := (radix =? 0) || (radix =? 16) in
    let R := if radix =? 0 then 10 else radix in
    let '(str, R) :=
      match str with
      | c0 :: c1 :: str' =>
        if stripPrefix && (c0 =? 48) && ((c1 =? 120) || (c1 =? 88))
        then (str', 16) else (str, R)
      | _ => (str, R)
      end in
    match takeWhile (isRadixDigit R) str with
    | [] => nan
    | digits =>
      let n := mathInt R digits in
      if n =? 0 then (if sign =? -1 then (-0)%float else 0%float)
      else numberOfZ (sign * n)
    end.

(** ** The catalog (data.ts) *)

Record Product := mkProduct {
  id : number;
  name : jsstring;
  price : number;
  inStock : bool
}.

(** [Product & { slug: string }] *)
Record ProductResponse := mkProductResponse {
  resp_id : number;
  resp_name : jsstring;
  resp_price : number;
  resp_inStock : bool;
  slug : jsstring
}.

(** The functions of data.ts read the module constant [products], the
    fixture products.json loaded once; here it is their first argument. *)
Definition getProducts (products : list Product) : list Product := products.

Definition getProductById (products : list Product) (id' : number)
  : option Product :=
  find (fun p => strictEq (id p) id') products.

Definition getProductBySlug `{CaseTables} (products : list Product)
  (slug' : jsstring) : option Product :=
  find (fun p => stringEq (slugify (name p)) slug') products.

(** ** The routes (productRoutes) *)

(** What a handler returns, to be serialised by the framework. *)
Inductive payload :=
| ProductsPayload (products : list ProductResponse)   (* { products } *)
| ProductPayload (product : ProductResponse)          (* { product }  *)
| ErrorPayload (error : jsstring).                    (* { error }    *)

(** The part of a Fastify reply the handlers touch. *)
Record FastifyReply := mkReply { statusCode : Z }.

(** A reply starts with status 200. *)
Definition freshReply : FastifyReply := mkReply 200.

(** [reply.code(n)] *)
Definition code (n : Z) (reply : FastifyReply) : FastifyReply := mkReply n.

(** [{ ...product, slug: slugify(product.name) }] *)
Definition withSlug `{CaseTables} (p : Product) : ProductResponse :=
  {| resp_id := id p;
     resp_name := name p;
     resp_price := price p;
     resp_inStock := inStock p;
     slug := slugify (name p) |}.

(** GET /products *)
Definition listProducts `{CaseTables} (products : list Product)
  (reply : FastifyReply) : FastifyReply * payload :=
  (reply, ProductsPayload (map withSlug (getProducts products))).

(** GET /products/:id *)
Definition productById `{CaseTables} (products : list Product)
  (idParam : jsstring) (reply : FastifyReply) : FastifyReply * payload :=
  match getProductById products (parseInt idParam 10) with
  | None => (code 404 reply, ErrorPayload (js "Product not found"))
  | Some p => (reply, ProductPayload (withSlug p))
  end.

(** GET /products/by-slug/:slug *)
Definition productBySlug `{CaseTables} (products : list Product)
  (slugParam : jsstring) (reply : FastifyReply) : FastifyReply * payload :=
  match getProductBySlug products slugParam with
  | None => (code 404 reply, ErrorPayload (js "Product not found"))
  | Some p => (reply, ProductPayload (withSlug p))
  end.

(** ** [formatPrice] (utils.ts) *)

(** The outcome of a call that may throw [new Error(message)]. *)
Inductive completion (A : Type) :=
| Return (value : A)
| Throw (message : jsstring).
Arguments Return {A} value.
Arguments Throw {A} message.

(** The decimal digits of a natural number, most significant first. *)
Definition decimal (n : Z) : jsstring :=
  js (NilZero.string_of_uint (N.to_uint (Z.to_N n))).

(** The integer nearest to [m * 2^e * 10^f], the larger one on a tie
    ([m >= 0]). *)
Definition roundScaled (m e : Z) (f : nat) : Z :=
  if 0 <=? e then m * 2 ^ e * 10 ^ Z.of_nat f
  else (2 * m * 10 ^ Z.of_nat f + 2 ^ (- e)) / 2 ^ (- e + 1).

(** [n] written with [f] digits behind the point (steps 10.b to 10.d of
    Number.prototype.toFixed): zeros are put in front until there is a
    digit before the point. *)
Definition fixedNotation (n : Z) (f : nat) : jsstring :=
  let m := decimal n in
  match f with
  | O => m
  | S _ =>
    let m := repeat 48 (S f - length m) ++ m in
    let k := length m in
    firstn (k - f) m ++ js "." ++ skipn (k - f) m
  end.

(** *** Number::toString for the large values [toFixed] hands to it *)

(** The digit strings [s] of [k] digits and scales [q] with
    [F(s * 10^q) = x], for an integer [X] of [d] digits. *)
Definition candidates (X : Z) (x : number) (d k : nat) : list (Z * Z) :=
  filter
    (fun sq : Z * Z =>
       let (s, q) := sq in
       (10 ^ (Z.of_nat k - 1) <=? s) && (s <? 10 ^ Z.of_nat k)
       && strictEq (numberOfZ (s * 10 ^ q)) x)
    (flat_map
       (fun q => [(X / 10 ^ q, q); (X / 10 ^ q + 1, q)])
       [Z.of_nat d - Z.of_nat k; Z.of_nat d + 1 - Z.of_nat k]).

(** Of two candidates the one nearer to [X]; the even one on a tie. *)
Definition nearer (X : Z) (a b : Z * Z) : Z * Z :=
  let da := Z.abs (fst a * 10 ^ snd a - X) in
  let db := Z.abs (fst b * 10 ^ snd b - X) in
  if da <? db then a
  else if db <? da then b
  else if Z.even (fst a) then a else b.

Definition shortestDigits (X : Z) (x : number) : option (Z * Z) :=
  let d := length (decimal X) in
  let fix search (k : nat) (fuel : nat) : option (Z * Z) :=
    match fuel with
    | O => None
    | S fuel' =>
      match candidates X x d k with
      | [] => search (S k) fuel'
      | a :: rest => Some (fold_left (nearer X) rest a)
      end
    end in
  search 1%nat 17%nat.

(** [x] is the double of the integer [X >= 10^21]: exponential notation,
    with the fewest digits that read back as [x]. *)
Definition exponentialNotation (X : Z) (x : number) : jsstring :=
  match shortestDigits X x with
  | None => []
  | Some (s, q) =>
    let digits := decimal s in
    let n := Z.of_nat (length digits) + q in
    let exponent := js "e+" ++ decimal (n - 1) in
    match digits with
    | [] => []
    | [d1] => d1 :: exponent
    | d1 :: more => d1 :: js "." ++ more ++ exponent
    end
  end.

(** [x.toFixed(fractionDigits)], ECMA-262 21.1.3.3; the source passes 2
    (a RangeError for [fractionDigits] outside 0..100 is not modelled). *)
Definition toFixed (x : number) (fractionDigits : nat) : jsstring :=
  match Prim2SF x with
  | S754_nan => js "NaN"
  | S754_infinity false => js "Infinity"
  | S754_infinity true => js "-Infinity"
  | S754_zero _ => fixedNotation 0 fractionDigits
  | S754_finite sign m e =>
    (if sign then js "-" else [])
    ++ (if (0 <=? e) && (10 ^ 21 <=? Zpos m * 2 ^ e)
        then exponentialNotation (Zpos m * 2 ^ e) (abs x)
        else fixedNotation (roundScaled (Zpos m) e fractionDigits) fractionDigits)
  end.

Definition formatPrice (cents : number) : completion jsstring :=
  if (cents <? 0)%float then Throw (js "Price cannot be negative")
  else Return (js "$" ++ toFixed (cents / 100)%float 2).

(** * What the statements are about *)

(** ** The slug deriver as the specification words it (section 4.1) *)

Definition isLetter (c : code_unit) : bool := isUpper c || isLower c.

(** "Replace every run of one-or-more [p] characters with a single [h]":
    a character of a run is dropped when the run goes on behind it, and
    becomes [h] when it ends the run. *)
Fixpoint replaceRuns (p : code_unit -> bool) (h : code_unit) (s : jsstring)
  : jsstring :=
  match s with
  | [] => []
  | c :: s' =>
    if p c then
      match s' with
      | d :: _ => if p d then replaceRuns p h s' else h :: replaceRuns p h s'
      | [] => [h]
      end
    else c :: replaceRuns p h s'
  end.

Definition step1 `{CaseTables} (s : jsstring) : jsstring := toLowerCase s.
Definition step2 (s : jsstring) : jsstring := trim s.
(** Step 3 as written: letters, digits, underscores and whitespace stay. *)
Definition step3 (s : jsstring) : jsstring :=
  filter (fun c => isLetter c || isDigit c || isUnderscore c || isWhiteSpace c) s.
Definition step4 (s : jsstring) : jsstring := replaceRuns isWhiteSpace 45 s.
Definition step5 (s : jsstring) : jsstring := replaceRuns isHyphen 45 s.

Definition deriveSlug `{CaseTables} (name : jsstring) : jsstring :=
  step5 (step4 (step3 (step2 (step1 name)))).

(** Step 3 with the hyphen among the characters that stay. *)
Definition step3_keeping_hyphens (s : jsstring) : jsstring :=
  filter (fun c => isLetter c || isDigit c || isUnderscore c || isWhiteSpace c
                   || isHyphen c) s.

Definition deriveSlug_keeping_hyphens `{CaseTables} (name : jsstring) : jsstring :=
  step5 (step4 (step3_keeping_hyphens (step2 (step1 name)))).

(** The alphabet of slugs: [a-z0-9_-]. *)
Definition isSlugChar (c : code_unit) : bool :=
  isLower c || isDigit c || isUnderscore c || isHyphen c.

(** The characters of the words of a slug: [a-z0-9_]. *)
Definition isSlugWord (c : code_unit) : bool :=
  isLower c || isDigit c || isUnderscore c.

(** No two neighbours both satisfy [p]. *)
Fixpoint noAdjacent (p : code_unit -> bool) (s : jsstring) : bool :=
  match s with
  | c :: s' =>
    match s' with
    | d :: _ => negb (p c && p d) && noAdjacent p s'
    | [] => true
    end
  | [] => true
  end.

(** What the proofs use of the Unicode case tables: on an ASCII string
    [toLowerCase] maps code unit by code unit, and no result contains one
    of [A-Z]. *)
Definition lowersAscii `{CaseTables} : Prop :=
  forall s, (forall c, In c s -> isAscii c = true) ->
            toLowerCase s = map asciiLower s.

Definition leavesNoUpper `{CaseTables} : Prop :=
  forall s c, In c (toLowerCase s) -> isUpper c = false.

(** The case tables restricted to ASCII, and the fixture of the
    specification's examples. *)
Definition asciiLowerCase : CaseTables := map asciiLower.

Definition fixture : list Product :=
  [ mkProduct 1%float (js "Widget") 500%float true;
    mkProduct 2%float (js "Gadget") 0%float false ].

(** "$", digits, a point and exactly two digits. *)
Definition isTwoDecimalAmount (s : jsstring) : bool :=
  match s with
  | c :: rest =>
    (c =? 36)
    && negb (Nat.eqb (length (takeWhile isDigit rest)) 0)
    && match dropWhile isDigit rest with
       | [p; d1; d2] => (p =? 46) && isDigit d1 && isDigit d2
       | _ => false
       end
  | [] => false
  end.

(** [n] is the integer nearest to a hundred times [|x|], the larger one of
    two that are equally near: [n - 1/2 <= 100 |x| < n + 1/2], where
    [|x| = m * 2^e]. *)
Definition isNearestHundredth (x : number) (n : Z) : Prop :=
  match Prim2SF x with
  | S754_zero _ => n = 0
  | S754_finite _ m e =>
    if 0 <=? e then n = Zpos m * 2 ^ e * 100
    else 2 * n * 2 ^ (- e) - 2 ^ (- e) <= 2 * Zpos m * 100
         /\ 2 * Zpos m * 100 < 2 * n * 2 ^ (- e) + 2 ^ (- e)
  | _ => False
  end.

(** [x] is the first element of [l] that satisfies [f]. *)
Definition firstMatch {A : Type} (f : A -> bool) (l : list A) (x : A) : Prop :=
  exists before after,
    l = before ++ x :: after /\ f x = true
    /\ Forall (fun y => f y = false) before.

(** Whitespace and hyphens: what separates the words of a slug. *)
Definition isSeparator (c : code_unit) : bool := isWhiteSpace c || isHyphen c.

(** What [slugify] removes. *)
Definition isSpecial (c : code_unit) : bool :=
  negb (isWord c || isWhiteSpace c || isHyphen c).

(** The value of a code unit in a string of digits, as [mathInt] takes
    it. *)
Definition digitOr0 (c : code_unit) : Z :=
  match digitValue c with Some d => d | None => 0 end.

(** * Properties *)

(** ** Properties of [replace] *)

Lemma replace_cons r rep c s :
  replace r rep (c :: s) =
  match matchLength r (c :: s) with
  | O => c :: replace r rep s
  | S k => rep ++ replace r rep (skipn k s)
  end.
Proof. simp replace. destruct (matchLength r (c :: s)); reflexivity. Qed.

Lemma skipn_takeWhile p s : skipn (length (takeWhile p s)) s = dropWhile p s.
Proof.
  induction s as [|c s IH]; simpl; [reflexivity|].
  destruct (p c); simpl; [exact IH | reflexivity].
Qed.

Lemma replace_Class_cons p rep c s :
  replace (Class p) rep (c :: s) =
  if p c then rep ++ replace (Class p) rep s else c :: replace (Class p) rep s.
Proof. rewrite replace_cons. simpl. destruct (p c); reflexivity. Qed.

Lemma replace_Plus_cons p rep c s :
  replace (Plus p) rep (c :: s) =
  if p c then rep ++ replace (Plus p) rep (dropWhile p s)
  else c :: replace (Plus p) rep s.
Proof.
  rewrite replace_cons. simpl. destruct (p c); simpl; [|reflexivity].
  now rewrite skipn_takeWhile.
Qed.

(** Deleting the matches of a class is filtering by its complement. *)
Lemma replace_Class_delete p s :
  replace (Class p) [] s = filter (fun c => negb (p c)) s.
Proof.
  induction s as [|c s IH]; [reflexivity|].
  rewrite replace_Class_cons. simpl. destruct (p c); simpl; now rewrite IH.
Qed.

(** The scanning replacement of [p+] by one character is the replacement
    of runs. *)
Lemma replace_Plus_runs p h s : replace (Plus p) [h] s = replaceRuns p h s.
Proof.
  induction s as [|c s IH]; [reflexivity|].
  rewrite replace_Plus_cons. simpl. destruct (p c) eqn:Hc.
  - destruct s as [|d s]; [reflexivity|].
    rewrite <- IH. cbn [dropWhile]. destruct (p d) eqn:Hd.
    + rewrite replace_Plus_cons, Hd. reflexivity.
    + reflexivity.
  - now rewrite IH.
Qed.

(** ** Character classes as arithmetic *)

Ltac classes :=
  unfold isSlugChar, isWord, isLetter, isUpper, isLower, isDigit,
    isUnderscore, isHyphen, isWhiteSpace, isAscii, inRange in *.

Ltac to_prop :=
  repeat match goal with
  | H : _ = false |- _ => apply not_true_iff_false in H
  | |- _ = false => apply not_true_iff_false
  end;
  rewrite ?negb_true_iff, ?orb_true_iff, ?andb_true_iff, ?Z.leb_le, ?Z.eqb_eq
    in *.

Ltac class_arith := classes; to_prop; lia.

Lemma isSlugChar_ascii c : isSlugChar c = true -> isAscii c = true.
Proof. intros H. class_arith. Qed.

Lemma isSlugChar_not_upper c : isSlugChar c = true -> isUpper c = false.
Proof. intros H. class_arith. Qed.

Lemma isSlugChar_not_space c : isSlugChar c = true -> isWhiteSpace c = false.
Proof. intros H. class_arith. Qed.

Lemma isSlugChar_kept c :
  isSlugChar c = true ->
  negb (isWord c || isWhiteSpace c || isHyphen c) = false.
Proof. intros H. apply negb_false_iff. class_arith. Qed.

Lemma kept_isSlugChar c :
  negb (isWord c || isWhiteSpace c || isHyphen c) = false ->
  isUpper c = false -> isWhiteSpace c = false -> isSlugChar c = true.
Proof.
  intros H Hu Hw. apply negb_false_iff in H.
  rewrite Hw, orb_false_r in H. unfold isWord in H. rewrite Hu in H.
  exact H.
Qed.

Lemma isHyphen_eq c : isHyphen c = true -> c = 45.
Proof. intros H. class_arith. Qed.

Lemma asciiLower_not_upper c : isUpper c = false -> asciiLower c = c.
Proof. unfold asciiLower. now intros ->. Qed.

(** ** [trim], [dropWhile] and runs *)

Lemma In_dropWhile p c s : In c (dropWhile p s) -> In c s.
Proof.
  induction s as [|d s IH]; simpl; [tauto|].
  destruct (p d); simpl; tauto.
Qed.

Lemma In_trim c s : In c (trim s) -> In c s.
Proof.
  unfold trim, trimEnd, trimStart. intros H.
  apply in_rev, In_dropWhile, in_rev, In_dropWhile in H. exact H.
Qed.

Lemma dropWhile_none p s :
  (forall c, In c s -> p c = false) -> dropWhile p s = s.
Proof.
  destruct s as [|c s]; simpl; [reflexivity|].
  intros H. now rewrite (H c) by now left.
Qed.

Lemma trim_none s :
  (forall c, In c s -> isWhiteSpace c = false) -> trim s = s.
Proof.
  intros H. unfold trim, trimEnd, trimStart.
  rewrite (dropWhile_none _ s) by exact H.
  rewrite dropWhile_none; [apply rev_involutive|].
  intros c Hc. apply H. now apply in_rev.
Qed.

Lemma filter_all (p : code_unit -> bool) s :
  (forall c, In c s -> p c = true) -> filter p s = s.
Proof.
  induction s as [|c s IH]; simpl; [reflexivity|].
  intros H. rewrite (H c) by now left.
  f_equal. apply IH. intros d Hd. apply H. now right.
Qed.

Lemma In_replaceRuns p h c s :
  In c (replaceRuns p h s) -> c = h \/ (In c s /\ p c = false).
Proof.
  induction s as [|d s IH]; simpl; [tauto|].
  destruct (p d) eqn:Hd.
  - destruct s as [|e s].
    + simpl. intros [<-|[]]. now left.
    + destruct (p e); [|intros [<-|H]; [now left|]];
        (apply IH in H || (intros H; apply IH in H)); tauto.
  - intros [<-|H]; [right; tauto|]. apply IH in H. tauto.
Qed.

Lemma replaceRuns_none p h s :
  (forall c, In c s -> p c = false) -> replaceRuns p h s = s.
Proof.
  induction s as [|c s IH]; simpl; [reflexivity|].
  intros H. rewrite (H c) by now left.
  f_equal. apply IH. intros d Hd. apply H. now right.
Qed.

Lemma noAdjacent_cons p c d t :
  noAdjacent p (c :: d :: t) = negb (p c && p d) && noAdjacent p (d :: t).
Proof. reflexivity. Qed.

Lemma noAdjacent_replaceRuns p h s :
  p h = true -> noAdjacent p (replaceRuns p h s) = true.
Proof.
  intros Hh. induction s as [|c s IH]; [reflexivity|].
  cbn [replaceRuns]. destruct (p c) eqn:Hc.
  - destruct s as [|d s]; [reflexivity|].
    destruct (p d) eqn:Hd; [exact IH|].
    revert IH. cbn [replaceRuns]. rewrite Hd. intros IH.
    now rewrite noAdjacent_cons, IH, Hd, andb_false_r.
  - destruct (replaceRuns p h s) as [|d t] eqn:Ht; [reflexivity|].
    now rewrite noAdjacent_cons, IH, Hc.
Qed.

Lemma replaceRuns_cons2 p h c d s :
  replaceRuns p h (c :: d :: s)
  = if p c
    then if p d then replaceRuns p h (d :: s) else h :: replaceRuns p h (d :: s)
    else c :: replaceRuns p h (d :: s).
Proof. reflexivity. Qed.

Lemma replaceRuns_single p h c :
  replaceRuns p h [c] = [if p c then h else c].
Proof. simpl. now destruct (p c). Qed.

(** In front of a run, what holds no [p] is copied. *)
Lemma replaceRuns_app_none p h u s :
  (forall c, In c u -> p c = false) ->
  replaceRuns p h (u ++ s) = u ++ replaceRuns p h s.
Proof.
  induction u as [|c u IH]; intros Hu; [reflexivity|].
  cbn [app replaceRuns]. rewrite (Hu c) by now left.
  f_equal. apply IH. intros d Hd. apply Hu. now right.
Qed.

(** A run of [h], however long, becomes one [h]. *)
Lemma replaceRuns_run p h k v :
  p h = true ->
  match v with d :: _ => p d = false | [] => True end ->
  replaceRuns p h (repeat h (S k) ++ v) = h :: replaceRuns p h v.
Proof.
  intros Hh Hv. induction k as [|k IH].
  - destruct v as [|d v].
    + cbn [repeat app]. now rewrite replaceRuns_single, Hh.
    + cbn [repeat app]. now rewrite replaceRuns_cons2, Hh, Hv.
  - change (repeat h (S (S k)) ++ v) with (h :: h :: (repeat h k ++ v)).
    rewrite replaceRuns_cons2, Hh. exact IH.
Qed.

Lemma replaceRuns_fixed p h s :
  (forall c, p c = true -> c = h) ->
  noAdjacent p s = true -> replaceRuns p h s = s.
Proof.
  intros Hp. induction s as [|c s IH]; [reflexivity|].
  destruct s as [|d s].
  - intros _. cbn [replaceRuns].
    destruct (p c) eqn:Hc; [|reflexivity]. now rewrite (Hp c Hc).
  - rewrite noAdjacent_cons. intros H.
    apply andb_true_iff in H. destruct H as [Hcd Hs].
    specialize (IH Hs). cbn [replaceRuns] in *. destruct (p c) eqn:Hc.
    + destruct (p d) eqn:Hd; [discriminate|].
      now rewrite IH, (Hp c Hc).
    + now rewrite IH.
Qed.

Section Slug.

Context {tables : CaseTables}.

(** ** The slug deriver *)

Lemma slugify_runs text :
  slugify text =
  replaceRuns isHyphen 45
    (replaceRuns isWhiteSpace 45
      (filter (fun c => negb (negb (isWord c || isWhiteSpace c || isHyphen c)))
        (trim (toLowerCase text)))).
Proof.
  unfold slugify, hyphens, whiteSpaces, specialChars.
  change (js "-") with [45]. change (js "") with (@nil code_unit).
  now rewrite !replace_Plus_runs, replace_Class_delete.
Qed.

Lemma slugify_chars :
  leavesNoUpper ->
  forall text c, In c (slugify text) -> isSlugChar c = true.
Proof.
  intros Hup text c. rewrite slugify_runs. intros H.
  apply In_replaceRuns in H. destruct H as [->|[H _]]; [reflexivity|].
  apply In_replaceRuns in H. destruct H as [->|[H Hw]]; [reflexivity|].
  apply filter_In in H. destruct H as [H Hk].
  apply In_trim, Hup in H. apply negb_true_iff in Hk.
  now apply kept_isSlugChar.
Qed.

Lemma slugify_noAdjacent text : noAdjacent isHyphen (slugify text) = true.
Proof. rewrite slugify_runs. now apply noAdjacent_replaceRuns. Qed.

Lemma slugify_fixed :
  lowersAscii ->
  forall s, (forall c, In c s -> isSlugChar c = true) ->
            noAdjacent isHyphen s = true -> slugify s = s.
Proof.
  intros Hlow s Hs Hadj. rewrite slugify_runs.
  rewrite Hlow by (intros c Hc; now apply isSlugChar_ascii, Hs).
  replace (map asciiLower s) with s.
  2:{ rewrite <- (map_id s) at 1. apply map_ext_in. intros c Hc.
      symmetry. now apply asciiLower_not_upper, isSlugChar_not_upper, Hs. }
  rewrite trim_none by (intros c Hc; now apply isSlugChar_not_space, Hs).
  rewrite filter_all.
  2:{ intros c Hc. now rewrite isSlugChar_kept by now apply Hs. }
  rewrite (replaceRuns_none isWhiteSpace)
    by (intros c Hc; now apply isSlugChar_not_space, Hs).
  apply replaceRuns_fixed; [exact isHyphen_eq | exact Hadj].
Qed.

(** C1 (as amended): [slugify] is the composition of the five steps of the
    specification, in their order, once step 3 keeps the hyphen beside the
    ASCII letters, the digits, the underscore and whitespace; hyphens of
    the input reach step 5, which collapses their runs. *)
Theorem slugify_five_steps text :
  slugify text = deriveSlug_keeping_hyphens text.
Proof.
  rewrite slugify_runs.
  unfold deriveSlug_keeping_hyphens, step5, step4, step3_keeping_hyphens,
    step2, step1.
  do 2 f_equal. apply filter_ext. intros c.
  rewrite negb_involutive. reflexivity.
Qed.

(** C4: [slugify] is idempotent; every slug is a fixed point. *)
Theorem slugify_idempotent :
  lowersAscii -> leavesNoUpper ->
  forall s, slugify (slugify s) = slugify s.
Proof.
  intros Hlow Hup s. apply slugify_fixed; trivial.
  - intros c. now apply slugify_chars.
  - apply slugify_noAdjacent.
Qed.

(** On a text over the alphabet of slugs only the last replacement is
    left to act. *)
Lemma slugify_on_slug_chars :
  lowersAscii ->
  forall t, (forall c, In c t -> isSlugChar c = true) ->
            slugify t = replaceRuns isHyphen 45 t.
Proof.
  intros Hlow t Ht. rewrite slugify_runs.
  rewrite Hlow by (intros c Hc; now apply isSlugChar_ascii, Ht).
  replace (map asciiLower t) with t.
  2:{ rewrite <- (map_id t) at 1. apply map_ext_in. intros c Hc.
      symmetry. now apply asciiLower_not_upper, isSlugChar_not_upper, Ht. }
  rewrite trim_none by (intros c Hc; now apply isSlugChar_not_space, Ht).
  rewrite filter_all.
  2:{ intros c Hc. now rewrite isSlugChar_kept by now apply Ht. }
  now rewrite (replaceRuns_none isWhiteSpace)
    by (intros c Hc; now apply isSlugChar_not_space, Ht).
Qed.

(** C5: [slugify] collapses the runs of hyphens and keeps one hyphen of
    each: no slug has two hyphens in a row; between two words over
    [a-z0-9_] a run of one or more hyphens comes out as exactly one hyphen
    (it is neither removed nor left as a run); slugify("a---b") is
    "a-b". *)
Theorem slugify_hyphen_collapse :
  lowersAscii ->
  (forall text, noAdjacent isHyphen (slugify text) = true)
  /\ (forall u v k,
        (forall c, In c u -> isSlugWord c = true) ->
        (forall c, In c v -> isSlugWord c = true) ->
        slugify (u ++ repeat 45 (S k) ++ v) = u ++ 45 :: v)
  /\ slugify (js "a---b") = js "a-b".
Proof.
  intros Hlow. split; [exact slugify_noAdjacent|]. split.
  - intros u v k Hu Hv.
    assert (Hword : forall c, isSlugWord c = true ->
                              isSlugChar c = true /\ isHyphen c = false).
    { intros c Hc. unfold isSlugWord in Hc. split; class_arith. }
    rewrite slugify_on_slug_chars; [|exact Hlow|].
    + rewrite replaceRuns_app_none by (intros c Hc; now apply Hword, Hu).
      rewrite replaceRuns_run.
      * now rewrite replaceRuns_none by (intros c Hc; now apply Hword, Hv).
      * reflexivity.
      * destruct v as [|d v]; [exact I|]. apply Hword, Hv. now left.
    + intros c Hc. apply in_app_or in Hc. destruct Hc as [Hc|Hc];
        [now apply Hword, Hu|].
      apply in_app_or in Hc. destruct Hc as [Hc|Hc]; [|now apply Hword, Hv].
      apply repeat_spec in Hc. now subst c.
  - unfold slugify. rewrite Hlow; [reflexivity|].
    intros c Hc. vm_compute in Hc.
    repeat (destruct Hc as [<-|Hc]; [reflexivity|]). destruct Hc.
Qed.

(** C9: every code unit of a slug is one of [a-z], [0-9], [_] and [-]; in
    particular none is whitespace or an upper-case letter. *)
Theorem slugify_url_safe :
  leavesNoUpper ->
  forall text c,
    In c (slugify text) ->
    isSlugChar c = true /\ isWhiteSpace c = false /\ isUpper c = false.
Proof.
  intros Hup text c Hc. pose proof (slugify_chars Hup text c Hc) as H.
  auto using isSlugChar_not_space, isSlugChar_not_upper.
Qed.

End Slug.


(** ** Lookups *)

Section FirstMatch.

Context {A : Type} (f : A -> bool).

Lemma find_Some_firstMatch l x : find f l = Some x <-> firstMatch f l x.
Proof.
  unfold firstMatch. induction l as [|a l IH]; simpl.
  - split; [discriminate|]. intros (before & after & E & _).
    now destruct before.
  - destruct (f a) eqn:Ha.
    + split.
      * intros [= ->]. exists [], l. auto.
      * intros (before & after & E & Hx & Hb).
        destruct before as [|b before]; simpl in E; injection E as -> E.
        -- reflexivity.
        -- apply Forall_inv in Hb. congruence.
    + rewrite IH. split.
      * intros (before & after & -> & Hx & Hb).
        exists (a :: before), after. auto.
      * intros (before & after & E & Hx & Hb).
        destruct before as [|b before]; simpl in E; injection E as -> E.
        -- congruence.
        -- exists before, after. apply Forall_inv_tail in Hb. auto.
Qed.

Lemma find_None_Forall l : find f l = None <-> Forall (fun y => f y = false) l.
Proof.
  induction l as [|a l IH]; simpl.
  - split; auto.
  - destruct (f a) eqn:Ha.
    + split; [discriminate|]. intros Hl. apply Forall_inv in Hl. congruence.
    + rewrite IH. split; [auto|apply Forall_inv_tail].
Qed.

End FirstMatch.

Lemma stringEq_eq s t : stringEq s t = true <-> s = t.
Proof.
  revert t. induction s as [|c s IH]; intros [|d t]; simpl;
    try (split; (reflexivity || discriminate)).
  rewrite andb_true_iff, Z.eqb_eq, IH. split.
  - now intros [-> ->].
  - now intros [= -> ->].
Qed.

Lemma stringEq_neq s t : stringEq s t = false <-> s <> t.
Proof. rewrite <- stringEq_eq. symmetry. apply not_true_iff_false. Qed.

(** *** Numbers under [===] *)

Lemma strictEq_nan_r x n : is_nan n = true -> strictEq x n = false.
Proof.
  unfold strictEq, is_nan. rewrite !eqb_spec, negb_true_iff.
  destruct (Prim2SF x) as [[]|[]| |[] ? ?], (Prim2SF n) as [[]|[]| |[] ? ?];
    simpl; trivial; unfold SFeqb; simpl;
    rewrite ?Z.compare_refl, ?Pos.compare_cont_refl; discriminate.
Qed.

Lemma strictEq_positive_nonpositive x n :
  (0 <? x)%float = true -> (n <=? 0)%float = true -> strictEq x n = false.
Proof.
  unfold strictEq. rewrite eqb_spec, ltb_spec, leb_spec.
  change (Prim2SF 0) with (S754_zero false).
  destruct (Prim2SF x) as [[]|[]| |[] ? ?], (Prim2SF n) as [[]|[]| |[] ? ?];
    simpl; trivial; discriminate.
Qed.

Section Catalog.

Context {tables : CaseTables}.
Variable products : list Product.

Let hasSlug (s : jsstring) (p : Product) : bool := stringEq (slugify (name p)) s.

(** C2: [getProductBySlug] returns the first product, in the order of the
    collection, whose derived slug is the argument (equality of strings,
    code unit by code unit), and [undefined] when there is none; of two
    products with one slug only the first is ever returned. *)
Theorem getProductBySlug_first_match (s : jsstring) :
  (forall p,
      getProductBySlug products s = Some p <->
      exists before after,
        products = before ++ p :: after /\ slugify (name p) = s
        /\ Forall (fun q => slugify (name q) <> s) before)
  /\ (getProductBySlug products s = None <->
      Forall (fun q => slugify (name q) <> s) products)
  /\ (forall before p between q after,
        products = before ++ p :: between ++ q :: after ->
        Forall (fun r => slugify (name r) <> s) before ->
        slugify (name p) = s -> slugify (name q) = s ->
        getProductBySlug products s = Some p).
Proof.
  assert (Hfirst : forall p,
      getProductBySlug products s = Some p <->
      exists before after,
        products = before ++ p :: after /\ slugify (name p) = s
        /\ Forall (fun q => slugify (name q) <> s) before).
  { intros p. unfold getProductBySlug. rewrite find_Some_firstMatch.
    unfold firstMatch. split; intros (before & after & E & Hp & Hb);
      exists before, after; (split; [exact E|]).
    - apply stringEq_eq in Hp. split; [exact Hp|].
      eapply Forall_impl; [|exact Hb]. intros q. apply stringEq_neq.
    - split; [now apply stringEq_eq|].
      eapply Forall_impl; [|exact Hb]. intros q. apply stringEq_neq. }
  split; [exact Hfirst|]. split.
  - unfold getProductBySlug. rewrite find_None_Forall.
    split; intros Hall; (eapply Forall_impl; [|exact Hall]);
      intros q; apply stringEq_neq.
  - intros before p between q after E Hb Hp _. apply Hfirst.
    exists before, (between ++ q :: after). auto.
Qed.

(** C10: for a product [p] of the collection, looking up the slug of its
    name returns the first product with that slug; it returns [p] itself
    when the derived slugs of the collection are pairwise distinct. *)
Theorem getProductBySlug_round_trip (p : Product) :
  In p products ->
  (exists q before after,
      getProductBySlug products (slugify (name p)) = Some q
      /\ products = before ++ q :: after
      /\ slugify (name q) = slugify (name p)
      /\ Forall (fun r => slugify (name r) <> slugify (name p)) before)
  /\ (NoDup (map (fun r => slugify (name r)) products) ->
      getProductBySlug products (slugify (name p)) = Some p).
Proof.
  intros Hin.
  assert (Hex : exists q, firstMatch (hasSlug (slugify (name p))) products q).
  { destruct (find (hasSlug (slugify (name p))) products) as [q|] eqn:Hq.
    - exists q. now apply find_Some_firstMatch.
    - apply find_None_Forall in Hq. rewrite Forall_forall in Hq.
      specialize (Hq p Hin). apply stringEq_neq in Hq. now elim Hq. }
  destruct Hex as (q & Hq). pose proof Hq as (before & after & E & Hs & Hb).
  apply stringEq_eq in Hs. split.
  - exists q, before, after. split; [now apply find_Some_firstMatch|].
    split; [exact E|]. split; [exact Hs|].
    eapply Forall_impl; [|exact Hb]. intros r. apply stringEq_neq.
  - intros Hnd. apply find_Some_firstMatch in Hq.
    unfold getProductBySlug. fold (hasSlug (slugify (name p))). rewrite Hq.
    f_equal. rewrite E in Hin, Hnd.
    rewrite map_app in Hnd. simpl in Hnd.
    apply in_app_or in Hin. destruct Hin as [Hin|[Hin|Hin]]; trivial.
    + rewrite Forall_forall in Hb. specialize (Hb p Hin).
      apply stringEq_neq in Hb. now elim Hb.
    + apply NoDup_remove_2 in Hnd. elim Hnd. apply in_or_app. right.
      rewrite Hs. now apply (in_map (fun r => slugify (name r))).
Qed.

(** C6: [getProductById] returns the first product, in the order of the
    collection, whose id is [===] to the argument, and [undefined], without
    throwing, when there is none; when every id of the collection is
    positive, that is the result for a negative argument, for zero and for
    [NaN]. *)
Theorem getProductById_first_match (n : number) :
  (forall p,
      getProductById products n = Some p <->
      exists before after,
        products = before ++ p :: after /\ strictEq (id p) n = true
        /\ Forall (fun q => strictEq (id q) n = false) before)
  /\ (getProductById products n = None <->
      Forall (fun q => strictEq (id q) n = false) products)
  /\ (Forall (fun q => (0 <? id q)%float = true) products ->
      (n <=? 0)%float = true \/ is_nan n = true ->
      getProductById products n = None).
Proof.
  split;
    [intros p; exact (find_Some_firstMatch (fun q => strictEq (id q) n) products p)|].
  split; [exact (find_None_Forall (fun q => strictEq (id q) n) products)|].
  intros Hpos Hn. apply find_None_Forall.
  eapply Forall_impl; [|exact Hpos]. intros q Hq. simpl in Hq.
  destruct Hn as [Hn|Hn].
  - now apply strictEq_positive_nonpositive.
  - now apply strictEq_nan_r.
Qed.

(** GET /products/:id answers 404 with the error body when [parseInt]
    gives [NaN] and when it gives a number that is the id of no product. *)
Lemma productById_nan_or_absent (idParam : jsstring) (reply : FastifyReply) :
  is_nan (parseInt idParam 10) = true
  \/ Forall (fun q => strictEq (id q) (parseInt idParam 10) = false) products ->
  productById products idParam reply
  = (mkReply 404, ErrorPayload (js "Product not found")).
Proof.
  intros Hid.
  assert (Hnone : getProductById products (parseInt idParam 10) = None).
  { apply find_None_Forall. destruct Hid as [Hnan|Hall]; [|exact Hall].
    apply Forall_forall. intros q _. now apply strictEq_nan_r. }
  unfold productById. now rewrite Hnone.
Qed.

(** C7: GET /products answers with every product of the collection, in the
    order of the collection, each with its four fields unchanged and with
    the slug of its name; the reply is left as it is, so the status of a
    fresh reply stays 200, also for the empty collection, whose answer is
    the empty list. *)
Theorem listProducts_all (reply : FastifyReply) :
  exists views,
    listProducts products reply = (reply, ProductsPayload views)
    /\ statusCode (fst (listProducts products freshReply)) = 200
    /\ length views = length products
    /\ (forall i p,
          nth_error products i = Some p ->
          exists v,
            nth_error views i = Some v
            /\ resp_id v = id p /\ resp_name v = name p
            /\ resp_price v = price p /\ resp_inStock v = inStock p
            /\ slug v = slugify (name p))
    /\ (products = [] -> views = []).
Proof.
  exists (map withSlug products). split; [reflexivity|].
  split; [reflexivity|]. split; [apply length_map|]. split.
  - intros i p Hi. exists (withSlug p). split; [|now repeat split].
    now apply map_nth_error.
  - now intros ->.
Qed.

End Catalog.

(** ** [formatPrice] *)

Lemma digits2_pos_bound m : Zpos m < 2 ^ Zpos (digits2_pos m).
Proof.
  induction m as [m IH|m IH|]; cbn [digits2_pos]; [| |reflexivity];
    rewrite Pos2Z.inj_succ, Z.pow_succ_r by lia; lia.
Qed.

Lemma compare_cont_Lt_Zlt p q :
  Pos.compare_cont Eq p q = Lt -> Zpos p < Zpos q.
Proof. intros H. exact H. Qed.

Lemma Prim2SF_100 : Prim2SF 100 = S754_finite false 7036874417766400 (-46).
Proof. vm_compute. reflexivity. Qed.

Lemma Prim2SF_1e21 : Prim2SF 1e21 = S754_finite false 7629394531250000 17.
Proof. vm_compute. reflexivity. Qed.

Lemma Prim2SF_0 : Prim2SF 0 = S754_zero false.
Proof. reflexivity. Qed.

(** The sign of a rounded result is the sign that was asked for. *)
Lemma binary_round_aux_sign sx mx ex lx :
  match binary_round_aux prec emax sx mx ex lx with
  | S754_nan => True
  | S754_zero s | S754_infinity s | S754_finite s _ _ => s = sx
  end.
Proof.
  unfold binary_round_aux.
  destruct (shr_fexp prec emax mx ex lx) as [mrs' e'].
  destruct (shr_fexp prec emax _ e' loc_Exact) as [mrs'' e''].
  destruct (shr_m mrs''); trivial.
  destruct (e'' <=? emax - prec); trivial.
Qed.

(** A hundredth of a number that is not below zero is not below zero. *)
Lemma hundredth_sign cents :
  (0 <=? cents)%float = true ->
  match Prim2SF (cents / 100) with
  | S754_nan | S754_zero _ => True
  | S754_infinity s | S754_finite s _ _ => s = false
  end.
Proof.
  rewrite leb_spec, div_spec, Prim2SF_0, Prim2SF_100.
  destruct (Prim2SF cents) as [s|[]| |[] m e]; try discriminate; intros _.
  - exact I.
  - reflexivity.
  - unfold SF64div, SFdiv.
    destruct (SFdiv_core_binary prec emax (Zpos m) e 7036874417766400 (-46))
      as [[mz ez] lz].
    pose proof (binary_round_aux_sign (xorb false false) mz ez lz) as Hs.
    destruct (binary_round_aux prec emax (xorb false false) mz ez lz); trivial.
Qed.

Lemma not_below_zero cents :
  (0 <=? cents)%float = true -> (cents <? 0)%float = false.
Proof.
  rewrite leb_spec, ltb_spec, Prim2SF_0.
  destruct (Prim2SF cents) as [s|[]| |[] m e]; trivial; discriminate.
Qed.

(** A finite double below 10^21 is written in fixed notation. *)
Lemma finite_below_1e21 x m e :
  Prim2SF x = S754_finite false m e ->
  (x <? 1e21)%float = true ->
  (0 <=? e) && (10 ^ 21 <=? Zpos m * 2 ^ e) = false.
Proof.
  intros Hx Hlt. pose proof (Prim2SF_valid x) as Hv.
  rewrite ltb_spec, Hx, Prim2SF_1e21 in Hlt. rewrite Hx in Hv.
  destruct (Z.leb_spec 0 e) as [He|He]; [|reflexivity]. cbn [andb].
  apply Z.leb_gt.
  unfold valid_binary, bounded, canonical_mantissa, fexp, emin in Hv.
  apply andb_true_iff in Hv. destruct Hv as [Hc _].
  apply Z.eqb_eq in Hc. change prec with 53 in Hc. change emax with 1024 in Hc.
  pose proof (digits2_pos_bound m) as Hm.
  assert (Hd : Zpos (digits2_pos m) = 53) by lia. rewrite Hd in Hm.
  unfold SFltb, SFcompare in Hlt.
  destruct (Z.compare_spec e 17) as [->|Hlt17|Hgt]; try discriminate.
  - destruct (Pos.compare_cont Eq m 7629394531250000) eqn:Hcmp;
      try discriminate.
    apply compare_cont_Lt_Zlt in Hcmp.
    change (10 ^ 21) with (7629394531250000 * 2 ^ 17).
    apply Z.mul_lt_mono_pos_r; [reflexivity | exact Hcmp].
  - assert (H16 : 2 ^ e <= 2 ^ 16) by (apply Z.pow_le_mono_r; lia).
    apply Z.le_lt_trans with (Zpos m * 2 ^ 16).
    + apply Z.mul_le_mono_nonneg_l; [lia | exact H16].
    + apply Z.lt_trans with (2 ^ 53 * 2 ^ 16); [|reflexivity].
      apply Z.mul_lt_mono_pos_r; [reflexivity | exact Hm].
Qed.

(** *** Digits *)

Lemma string_of_uint_digits u :
  Forall (fun c => isDigit c = true) (js (NilEmpty.string_of_uint u)).
Proof. induction u; simpl; constructor; trivial. Qed.

Lemma decimal_digits n : Forall (fun c => isDigit c = true) (decimal n).
Proof.
  unfold decimal, NilZero.string_of_uint.
  destruct (N.to_uint (Z.to_N n)); try apply string_of_uint_digits.
  now repeat constructor.
Qed.

Lemma decimal_length n : (1 <= length (decimal n))%nat.
Proof.
  unfold decimal, NilZero.string_of_uint.
  destruct (N.to_uint (Z.to_N n)); simpl; lia.
Qed.

Lemma takeWhile_app_stop p a c b :
  Forall (fun d => p d = true) a -> p c = false ->
  takeWhile p (a ++ c :: b) = a.
Proof.
  intros Ha Hc. induction Ha as [|d a Hd Ha IH]; simpl.
  - now rewrite Hc.
  - now rewrite Hd, IH.
Qed.

Lemma dropWhile_app_stop p a c b :
  Forall (fun d => p d = true) a -> p c = false ->
  dropWhile p (a ++ c :: b) = c :: b.
Proof.
  intros Ha Hc. induction Ha as [|d a Hd Ha IH]; simpl.
  - now rewrite Hc.
  - now rewrite Hd, IH.
Qed.

(** With two fraction digits the result is digits, a point, two digits. *)
Lemma fixedNotation_two_decimals n :
  isTwoDecimalAmount (js "$" ++ fixedNotation n 2) = true.
Proof.
  unfold fixedNotation.
  set (m := repeat 48 (3 - length (decimal n)) ++ decimal n).
  assert (Hm : Forall (fun c => isDigit c = true) m).
  { apply Forall_app. split; [|apply decimal_digits].
    apply Forall_forall. intros c Hc. apply repeat_spec in Hc. now subst. }
  assert (Hk : (3 <= length m)%nat).
  { unfold m. rewrite length_app, repeat_length.
    pose proof (decimal_length n). unfold jsstring, code_unit in *. lia. }
  set (k := length m) in *.
  pose proof Hm as Hab. rewrite <- (firstn_skipn (k - 2) m) in Hab.
  apply Forall_app in Hab. destruct Hab as [Ha Hb].
  assert (Hla : length (firstn (k - 2) m) = (k - 2)%nat)
    by (rewrite length_firstn; lia).
  assert (Hlb : length (skipn (k - 2) m) = 2%nat)
    by (rewrite length_skipn; lia).
  change (js "$" ++ ?t) with (36 :: t). change (js ".") with [46].
  cbn [isTwoDecimalAmount app].
  rewrite takeWhile_app_stop, dropWhile_app_stop by trivial.
  unfold jsstring, code_unit in *. rewrite Hla.
  destruct (skipn (k - 2) m) as [|d1 [|d2 [|d3 t]]]; try discriminate.
  apply Forall_cons_iff in Hb. destruct Hb as [H1 Hb].
  apply Forall_inv in Hb. rewrite H1, Hb.
  destruct (k - 2)%nat eqn:E; [lia|reflexivity].
Qed.

(** The integer [roundScaled m e f] is nearest to [m * 2^e * 10^f]: the
    distance is at most a half, and a half only downwards. *)
Lemma roundScaled_nearest m e f :
  0 <= m -> e < 0 ->
  let n := roundScaled m e f in
  2 * n * 2 ^ (- e) - 2 ^ (- e) <= 2 * m * 10 ^ Z.of_nat f
  /\ 2 * m * 10 ^ Z.of_nat f < 2 * n * 2 ^ (- e) + 2 ^ (- e).
Proof.
  intros Hm He. unfold roundScaled.
  destruct (Z.leb_spec 0 e) as [H0|_]; [lia|]. cbv zeta.
  set (k := 2 ^ (- e)). assert (Hk : 0 < k) by (apply Z.pow_pos_nonneg; lia).
  replace (2 ^ (- e + 1)) with (2 * k)
    by (unfold k; rewrite Z.pow_add_r by lia; lia).
  set (y := 2 * m * 10 ^ Z.of_nat f).
  pose proof (Z.div_mod (y + k) (2 * k)) as Hdiv.
  pose proof (Z.mod_pos_bound (y + k) (2 * k)) as Hmod.
  nia.
Qed.

Lemma roundScaled_nonneg m e f : 0 <= m -> 0 <= roundScaled m e f.
Proof.
  intros Hm. unfold roundScaled.
  assert (H10 : 0 <= 10 ^ Z.of_nat f) by (apply Z.pow_nonneg; lia).
  destruct (Z.leb_spec 0 e) as [He|He].
  - assert (0 <= 2 ^ e) by (apply Z.pow_nonneg; lia). nia.
  - assert (0 < 2 ^ (- e)) by (apply Z.pow_pos_nonneg; lia).
    apply Z.div_pos; [nia|]. apply Z.pow_pos_nonneg; lia.
Qed.

Lemma roundScaled_isNearestHundredth x s m e :
  Prim2SF x = S754_finite s m e ->
  isNearestHundredth x (roundScaled (Zpos m) e 2).
Proof.
  intros Hx. unfold isNearestHundredth. rewrite Hx.
  destruct (Z.leb_spec 0 e) as [He|He].
  - unfold roundScaled. apply Z.leb_le in He. now rewrite He.
  - apply (roundScaled_nearest (Zpos m) e 2); lia.
Qed.

(** C8 (as amended): [formatPrice] throws for every input below zero; for
    every input that is at least zero and whose hundredth, the double
    [cents / 100], is below 10^21 it returns "$", digits, a point and two
    digits, the digits being those of the integer nearest to a hundred
    times that double; formatPrice(0), formatPrice(99) and
    formatPrice(123456) are "$0.00", "$0.99" and "$1234.56". *)
Theorem formatPrice_contract :
  (forall cents,
      (cents <? 0)%float = true ->
      formatPrice cents = Throw (js "Price cannot be negative"))
  /\ (forall cents,
        (0 <=? cents)%float = true ->
        (cents / 100 <? 1e21)%float = true ->
        exists n,
          isNearestHundredth (cents / 100)%float n
          /\ formatPrice cents = Return (js "$" ++ fixedNotation n 2)
          /\ isTwoDecimalAmount (js "$" ++ fixedNotation n 2) = true)
  /\ formatPrice 0%float = Return (js "$0.00")
  /\ formatPrice 99%float = Return (js "$0.99")
  /\ formatPrice 123456%float = Return (js "$1234.56").
Proof.
  split; [|split].
  - intros cents Hneg. unfold formatPrice. now rewrite Hneg.
  - intros cents Hpos Hsmall.
    pose proof (hundredth_sign cents Hpos) as Hsign.
    unfold formatPrice. rewrite (not_below_zero cents Hpos).
    unfold toFixed, isNearestHundredth.
    destruct (Prim2SF (cents / 100)) as [s|s| |s m e] eqn:Hx.
    + exists 0. split; [reflexivity|]. split; [reflexivity|].
      apply fixedNotation_two_decimals.
    + subst s. rewrite ltb_spec, Hx, Prim2SF_1e21 in Hsmall. discriminate.
    + rewrite ltb_spec, Hx in Hsmall. discriminate.
    + subst s. rewrite (finite_below_1e21 _ _ _ Hx Hsmall).
      exists (roundScaled (Zpos m) e 2). split; [|split].
      * pose proof (roundScaled_isNearestHundredth _ _ _ _ Hx) as Hn.
        unfold isNearestHundredth in Hn. now rewrite Hx in Hn.
      * reflexivity.
      * apply fixedNotation_two_decimals.
  - repeat split; vm_compute; reflexivity.
Qed.

(** ** The case tables on ASCII *)

Lemma asciiLowerCase_lowersAscii : @lowersAscii asciiLowerCase.
Proof. intros s _. reflexivity. Qed.

Lemma asciiLowerCase_leavesNoUpper : @leavesNoUpper asciiLowerCase.
Proof.
  intros s c Hc. apply in_map_iff in Hc. destruct Hc as [d [<- _]].
  unfold asciiLower. destruct (isUpper d) eqn:Hd; [|exact Hd].
  class_arith.
Qed.

(** C1 (as stated) fails at "a-b": the program keeps the hyphen, the five
    steps as written remove it in step 3. *)
Lemma slugify_keeps_hyphen :
  @slugify asciiLowerCase (js "a-b") = js "a-b"
  /\ @deriveSlug asciiLowerCase (js "a-b") = js "ab".
Proof. split; vm_compute; reflexivity. Qed.

Lemma slugify_idempotent_witness :
  @slugify asciiLowerCase (@slugify asciiLowerCase (js "  Mic's Pro!! 2.0 "))
  = @slugify asciiLowerCase (js "  Mic's Pro!! 2.0 ").
Proof.
  apply (@slugify_idempotent asciiLowerCase
           asciiLowerCase_lowersAscii asciiLowerCase_leavesNoUpper).
Defined.

Lemma slugify_hyphen_collapse_witness :
  noAdjacent isHyphen (@slugify asciiLowerCase (js "Mic's -- Pro")) = true
  /\ @slugify asciiLowerCase (js "x1" ++ repeat 45 2 ++ js "y_2")
     = js "x1" ++ 45 :: js "y_2"
  /\ @slugify asciiLowerCase (js "a---b") = js "a-b".
Proof.
  pose proof (@slugify_hyphen_collapse asciiLowerCase
                asciiLowerCase_lowersAscii) as (Hadj & Hrun & Hex).
  split; [exact (Hadj (js "Mic's -- Pro"))|]. split; [|exact Hex].
  apply (Hrun (js "x1") (js "y_2") 1%nat);
    intros c Hc; vm_compute in Hc;
    repeat (destruct Hc as [<-|Hc]; [reflexivity|]); destruct Hc.
Defined.

Lemma slugify_url_safe_witness :
  In 109 (@slugify asciiLowerCase (js "Mic's Pro!! 2.0"))
  /\ (isSlugChar 109 = true /\ isWhiteSpace 109 = false
      /\ isUpper 109 = false).
Proof.
  assert (Hin : In 109 (@slugify asciiLowerCase (js "Mic's Pro!! 2.0")))
    by (vm_compute; tauto).
  split; [exact Hin|].
  exact (@slugify_url_safe asciiLowerCase asciiLowerCase_leavesNoUpper
           (js "Mic's Pro!! 2.0") 109 Hin).
Defined.

Lemma parseInt_no_digits s :
  takeWhile (isRadixDigit 10) (dropSign (trimStart s)) = [] ->
  parseInt s 10 = nan.
Proof.
  unfold parseInt.
  change (10 =? 0) with false. change (10 =? 16) with false.
  change (10 <? 2) with false. change (36 <? 10) with false.
  cbn [negb andb orb].
  intros H. destruct (dropSign (trimStart s)) as [|c0 [|c1 t]];
    rewrite H; reflexivity.
Qed.

(** ** The properties at the fixture of the specification *)

(** Two products whose names give one slug. *)
Definition colliding : list Product :=
  [ mkProduct 1%float (js "Wireless Mouse") 2500%float true;
    mkProduct 7%float (js "wireless   mouse!") 1900%float false ].

Lemma getProductBySlug_first_match_witness :
  @getProductBySlug asciiLowerCase colliding (js "wireless-mouse")
  = Some (mkProduct 1%float (js "Wireless Mouse") 2500%float true).
Proof.
  apply (proj2 (proj2 (@getProductBySlug_first_match asciiLowerCase colliding
                         (js "wireless-mouse")))
           [] _ [] (mkProduct 7%float (js "wireless   mouse!") 1900%float false)
           []);
    [reflexivity | constructor | vm_compute; reflexivity
    | vm_compute; reflexivity].
Defined.

Lemma getProductBySlug_round_trip_witness :
  @getProductBySlug asciiLowerCase fixture
    (@slugify asciiLowerCase (js "Gadget"))
  = Some (mkProduct 2%float (js "Gadget") 0%float false).
Proof.
  apply (proj2 (@getProductBySlug_round_trip asciiLowerCase fixture
                  (mkProduct 2%float (js "Gadget") 0%float false)
                  (or_intror (or_introl eq_refl)))).
  vm_compute. repeat constructor; simpl; intuition discriminate.
Defined.

Lemma getProductById_first_match_witness :
  getProductById fixture 0%float = None
  /\ getProductById fixture (-3)%float = None
  /\ getProductById fixture nan = None.
Proof.
  assert (Hpos : Forall (fun q => (0 <? id q)%float = true) fixture)
    by (repeat constructor).
  split; [|split].
  - apply (proj2 (proj2 (getProductById_first_match fixture 0%float)) Hpos).
    left. reflexivity.
  - apply (proj2 (proj2 (getProductById_first_match fixture (-3)%float)) Hpos).
    left. reflexivity.
  - apply (proj2 (proj2 (getProductById_first_match fixture nan)) Hpos).
    right. reflexivity.
Defined.

(** C8 (as stated) fails for large inputs: a hundredth of 10^21 or more is
    written in exponential notation, [Infinity] is written as such, and
    near 2^53 the cent printed is not the cent given. *)
Lemma formatPrice_large :
  formatPrice (numberOfZ (10 ^ 24)) = Return (js "$1e+22")
  /\ formatPrice infinity = Return (js "$Infinity")
  /\ formatPrice (numberOfZ 9007199254740901)
     = Return (js "$90071992547409.02").
Proof. repeat split; vm_compute; reflexivity. Qed.

Lemma formatPrice_contract_witness :
  formatPrice (-100)%float = Throw (js "Price cannot be negative")
  /\ exists n,
      isNearestHundredth (1000 / 100)%float n
      /\ formatPrice 1000%float = Return (js "$" ++ fixedNotation n 2)
      /\ isTwoDecimalAmount (js "$" ++ fixedNotation n 2) = true.
Proof.
  split.
  - apply (proj1 formatPrice_contract). reflexivity.
  - apply (proj1 (proj2 formatPrice_contract)); reflexivity.
Defined.

(** ** The examples of the specification (section 8) *)

Example slugify_case_insensitive :
  @slugify asciiLowerCase (js "Wireless Mouse") = js "wireless-mouse"
  /\ @slugify asciiLowerCase (js "wireless mouse") = js "wireless-mouse".
Proof. split; vm_compute; reflexivity. Qed.

Example slugify_punctuation :
  @slugify asciiLowerCase (js "Mic's Pro!! 2.0") = js "mics-pro-20".
Proof. vm_compute. reflexivity. Qed.

Example slugify_whitespace : @slugify asciiLowerCase (js "  a    b  ") = js "a-b".
Proof. vm_compute. reflexivity. Qed.

Example slugify_empty : @slugify asciiLowerCase (js "!!!") = js "".
Proof. vm_compute. reflexivity. Qed.

Example productById_found :
  @productById asciiLowerCase fixture (js "1") freshReply
  = (mkReply 200,
     ProductPayload
       (mkProductResponse 1%float (js "Widget") 500%float true (js "widget"))).
Proof. vm_compute. reflexivity. Qed.

Example productBySlug_found_and_missing :
  @productBySlug asciiLowerCase fixture (js "gadget") freshReply
  = (mkReply 200,
     ProductPayload
       (mkProductResponse 2%float (js "Gadget") 0%float false (js "gadget")))
  /\ @productBySlug asciiLowerCase fixture (js "nope") freshReply
     = (mkReply 404, ErrorPayload (js "Product not found"))
  /\ @productBySlug asciiLowerCase fixture (js "Gadget") freshReply
     = (mkReply 404, ErrorPayload (js "Product not found")).
Proof. repeat split; vm_compute; reflexivity. Qed.

Example parseInt_examples :
  parseInt (js " 42px") 10 = 42%float
  /\ parseInt (js "-7") 10 = (-7)%float
  /\ parseInt (js "") 10 = nan
  /\ parseInt (js "x1") 10 = nan.
Proof. repeat split; vm_compute; reflexivity. Qed.

Example formatPrice_tests :
  formatPrice 1000%float = Return (js "$10.00")
  /\ formatPrice (-100)%float = Throw (js "Price cannot be negative").
Proof. split; vm_compute; reflexivity. Qed.

(** * Further properties of the program *)

(** ** More on runs *)

Lemma replaceRuns_head p h c s :
  exists t, replaceRuns p h (c :: s) = (if p c then h else c) :: t.
Proof.
  revert c. induction s as [|d s IH]; intros c.
  - rewrite replaceRuns_single. eexists; reflexivity.
  - rewrite replaceRuns_cons2. destruct (p c) eqn:Hc; [|eexists; reflexivity].
    destruct (p d) eqn:Hd; [|eexists; reflexivity].
    destruct (IH d) as [t Ht]. rewrite Hd in Ht. exists t. exact Ht.
Qed.

Lemma replaceRuns_nil p h s : replaceRuns p h s = [] <-> s = [].
Proof.
  split; [|now intros ->]. destruct s as [|c s]; [reflexivity|].
  destruct (replaceRuns_head p h c s) as [t ->]. discriminate.
Qed.

Lemma replaceRuns_length p h s :
  (length (replaceRuns p h s) <= length s)%nat.
Proof.
  induction s as [|c s IH]; [reflexivity|].
  destruct s as [|d s].
  - rewrite replaceRuns_single. reflexivity.
  - rewrite replaceRuns_cons2.
    destruct (p c), (p d); cbn [length] in *; lia.
Qed.

Lemma dropWhile_length p s : (length (dropWhile p s) <= length s)%nat.
Proof.
  induction s as [|c s IH]; simpl; [lia|].
  destruct (p c); simpl; lia.
Qed.

Lemma trim_length s : (length (trim s) <= length s)%nat.
Proof.
  unfold trim, trimEnd, trimStart. rewrite length_rev.
  pose proof (dropWhile_length isWhiteSpace (rev (dropWhile isWhiteSpace s))).
  pose proof (dropWhile_length isWhiteSpace s).
  rewrite length_rev in *. lia.
Qed.

(** Replacing the runs of whitespace and then the runs of hyphens is
    replacing the runs of separators. *)
Lemma replaceRuns_separators s :
  replaceRuns isHyphen 45 (replaceRuns isWhiteSpace 45 s)
  = replaceRuns isSeparator 45 s.
Proof.
  assert (Hq : forall x, isSeparator x = isWhiteSpace x || isHyphen x)
    by reflexivity.
  assert (H45 : isHyphen 45 = true) by reflexivity.
  induction s as [|c s IH]; [reflexivity|].
  destruct s as [|d s].
  - rewrite !replaceRuns_single, Hq.
    destruct (isWhiteSpace c) eqn:Hw; cbn [orb].
    + now rewrite H45.
    + reflexivity.
  - destruct (replaceRuns_head isWhiteSpace 45 d s) as [t Ht].
    rewrite (replaceRuns_cons2 isWhiteSpace), (replaceRuns_cons2 isSeparator).
    rewrite Ht in IH |- *. rewrite !Hq.
    destruct (isWhiteSpace c) eqn:Hw; cbn [orb].
    + destruct (isWhiteSpace d) eqn:Hd; cbn [orb]; [exact IH|].
      rewrite replaceRuns_cons2, H45.
      destruct (isHyphen d) eqn:Hh; [exact IH | now rewrite IH].
    + rewrite replaceRuns_cons2.
      destruct (isHyphen c) eqn:Hh.
      * destruct (isWhiteSpace d) eqn:Hd; cbn [orb].
        -- now rewrite H45.
        -- destruct (isHyphen d) eqn:Hhd; [exact IH | now rewrite IH].
      * now rewrite IH.
Qed.

Section MoreSlug.

Context {tables : CaseTables}.

(** X2: the two last replacements act as one: [slugify] lower-cases, trims,
    removes the special characters and turns every maximal run of
    separators (whitespace and hyphens, mixed as they come) into one
    hyphen. *)
Theorem slugify_separator_runs text :
  slugify text
  = replaceRuns isSeparator 45
      (filter (fun c => negb (isSpecial c)) (trim (toLowerCase text))).
Proof. rewrite slugify_runs. apply replaceRuns_separators. Qed.

(** X3: a slug is never longer than the lower-cased text. *)
Theorem slugify_length text :
  (length (slugify text) <= length (toLowerCase text))%nat.
Proof.
  rewrite slugify_runs.
  pose proof (replaceRuns_length isHyphen 45
    (replaceRuns isWhiteSpace 45
      (filter (fun c => negb (negb (isWord c || isWhiteSpace c || isHyphen c)))
        (trim (toLowerCase text))))).
  pose proof (replaceRuns_length isWhiteSpace 45
      (filter (fun c => negb (negb (isWord c || isWhiteSpace c || isHyphen c)))
        (trim (toLowerCase text)))).
  pose proof (filter_length_le
    (fun c => negb (negb (isWord c || isWhiteSpace c || isHyphen c)))
    (trim (toLowerCase text))).
  pose proof (trim_length (toLowerCase text)).
  unfold jsstring, code_unit in *. lia.
Qed.

(** X4: the slug is empty exactly when nothing but special characters is
    left of the lower-cased text once it is trimmed (so for an empty or
    all-whitespace text, and for one of punctuation only). *)
Theorem slugify_empty_iff text :
  slugify text = []
  <-> forall c, In c (trim (toLowerCase text)) -> isSpecial c = true.
Proof.
  rewrite slugify_runs, !replaceRuns_nil. split.
  - intros Hf c Hc. destruct (isSpecial c) eqn:Hs; [reflexivity|].
    assert (In c []) as []. rewrite <- Hf. apply filter_In.
    split; [exact Hc|]. unfold isSpecial in Hs. now rewrite Hs.
  - intros Hall.
    destruct (filter _ (trim (toLowerCase text))) as [|c t] eqn:Hf;
      [reflexivity|].
    assert (Hc : In c (c :: t)) by now left. rewrite <- Hf in Hc.
    apply filter_In in Hc. destruct Hc as [Hc Hk].
    apply Hall in Hc. unfold isSpecial in Hc. rewrite Hc in Hk. discriminate.
Qed.

(** X1: the slugs are exactly the strings over [a-z0-9_-] without two
    hyphens in a row. *)
Theorem slugify_image :
  lowersAscii -> leavesNoUpper ->
  forall s,
    (exists text, slugify text = s)
    <-> (forall c, In c s -> isSlugChar c = true)
        /\ noAdjacent isHyphen s = true.
Proof.
  intros Hlow Hup s. split.
  - intros [text <-]. split.
    + intros c. now apply slugify_chars.
    + apply slugify_noAdjacent.
  - intros [Hs Hadj]. exists s. now apply slugify_fixed.
Qed.

(** X12: on ASCII texts the slug does not depend on the case of the
    letters. *)
Theorem slugify_ascii_case :
  lowersAscii ->
  forall a b,
    (forall c, In c a -> isAscii c = true) ->
    (forall c, In c b -> isAscii c = true) ->
    map asciiLower a = map asciiLower b ->
    slugify a = slugify b.
Proof.
  intros Hlow a b Ha Hb Hab. unfold slugify.
  now rewrite (Hlow a Ha), (Hlow b Hb), Hab.
Qed.

End MoreSlug.

(** ** More on lookups *)

Lemma find_unique_key {A K : Type} (k : A -> K) (f : A -> bool) l x :
  NoDup (map k l) -> In x l -> f x = true ->
  (forall y, In y l -> f y = true -> k y = k x) ->
  find f l = Some x.
Proof.
  induction l as [|a l IH]; simpl; [tauto|].
  intros Hnd Hin Hx Hk. apply NoDup_cons_iff in Hnd. destruct Hnd as [Ha Hnd].
  destruct (f a) eqn:Hfa.
  - destruct Hin as [->|Hin]; [reflexivity|]. elim Ha.
    rewrite (Hk a (or_introl eq_refl) Hfa). now apply in_map.
  - destruct Hin as [->|Hin]; [congruence|]. apply IH; auto.
Qed.

Lemma find_member {A : Type} (f : A -> bool) l x :
  In x l -> f x = true -> exists y, find f l = Some y /\ f y = true /\ In y l.
Proof.
  intros Hin Hx. destruct (find f l) as [y|] eqn:Hy.
  - exists y. apply find_some in Hy. tauto.
  - apply find_none with (x := x) in Hy; [congruence | exact Hin].
Qed.

(** ** More on [parseInt] *)

Lemma isRadixDigit_10 c : isRadixDigit 10 c = isDigit c.
Proof.
  unfold isRadixDigit, digitValue.
  destruct (isDigit c) eqn:Hd.
  - apply Z.ltb_lt. class_arith.
  - destruct (isLower c) eqn:Hl; [apply Z.ltb_ge; class_arith|].
    destruct (isUpper c) eqn:Hu; [apply Z.ltb_ge; class_arith|reflexivity].
Qed.

Lemma takeWhile_ext p q s :
  (forall c, p c = q c) -> takeWhile p s = takeWhile q s.
Proof.
  intros H. induction s as [|c s IH]; simpl; [reflexivity|].
  now rewrite H, IH.
Qed.

Lemma takeWhile_all p s :
  Forall (fun c => p c = true) s -> takeWhile p s = s.
Proof. induction 1 as [|c s Hc Hs IH]; simpl; [reflexivity|]. now rewrite Hc, IH. Qed.

Lemma dropWhile_app_all p w s :
  Forall (fun c => p c = true) w -> dropWhile p (w ++ s) = dropWhile p s.
Proof. induction 1 as [|c w Hc Hw IH]; simpl; [reflexivity|]. now rewrite Hc. Qed.

(** [parseInt] for radix 10, with the tests on the radix evaluated. *)
Lemma parseInt_radix10 s :
  parseInt s 10
  = match takeWhile (isRadixDigit 10) (dropSign (trimStart s)) with
    | [] => nan
    | digits =>
      let sign := match trimStart s with
                  | c :: _ => if c =? 45 then -1 else 1
                  | [] => 1
                  end in
      let n := mathInt 10 digits in
      if n =? 0 then (if sign =? -1 then (-0)%float else 0%float)
      else numberOfZ (sign * n)
    end.
Proof.
  unfold parseInt.
  change (10 =? 0) with false. change (10 =? 16) with false.
  change (10 <? 2) with false. change (36 <? 10) with false.
  cbn [negb andb orb].
  destruct (dropSign (trimStart s)) as [|c0 [|c1 t]]; reflexivity.
Qed.

(** A string that begins with decimal digits parses to the number they
    write, whatever follows them. *)
Lemma parseInt_leading_digits d rest :
  d <> [] -> Forall (fun c => isDigit c = true) d ->
  match rest with c :: _ => isDigit c = false | [] => True end ->
  parseInt (d ++ rest) 10
  = if mathInt 10 d =? 0 then 0%float else numberOfZ (mathInt 10 d).
Proof.
  intros Hne Hd Hrest. rewrite parseInt_radix10.
  destruct d as [|c d]; [congruence|]. clear Hne.
  pose proof (Forall_inv Hd) as Hc.
  assert (Hw : isWhiteSpace c = false) by class_arith.
  assert (Hm : (c =? 45) = false) by class_arith.
  assert (Hp : (c =? 43) = false) by class_arith.
  assert (Ht : trimStart ((c :: d) ++ rest) = (c :: d) ++ rest)
    by (unfold trimStart; simpl; now rewrite Hw).
  rewrite Ht. cbn [app dropSign]. rewrite Hm, Hp. cbn [orb].
  rewrite (takeWhile_ext _ isDigit) by apply isRadixDigit_10.
  change (c :: d ++ rest) with ((c :: d) ++ rest).
  assert (Htw : takeWhile isDigit ((c :: d) ++ rest) = c :: d).
  { destruct rest as [|r rest].
    - rewrite app_nil_r. now apply takeWhile_all.
    - now apply takeWhile_app_stop. }
  rewrite Htw. cbv zeta. change (1 =? -1) with false. cbv iota.
  now rewrite Z.mul_1_l.
Qed.

(** *** Rounding never gives [NaN] *)

Lemma shr_1_nonneg mrs : 0 <= shr_m mrs -> 0 <= shr_m (shr_1 mrs).
Proof.
  destruct mrs as [m r s]. simpl.
  destruct m as [|[p|p|]|[p|p|]]; simpl; lia.
Qed.

Lemma iter_pos_shr_1_nonneg p mrs :
  0 <= shr_m mrs -> 0 <= shr_m (iter_pos shr_1 p mrs).
Proof.
  revert mrs. induction p as [p IH|p IH|]; intros mrs H; simpl;
    auto using shr_1_nonneg.
Qed.

Lemma shr_fexp_nonneg m e l :
  0 <= m -> 0 <= shr_m (fst (shr_fexp prec emax m e l)).
Proof.
  intros Hm. unfold shr_fexp, shr.
  assert (H0 : 0 <= shr_m (shr_record_of_loc m l))
    by (destruct l as [|[]]; exact Hm).
  destruct (fexp prec emax (Zdigits2 m + e) - e); simpl; trivial.
  now apply iter_pos_shr_1_nonneg.
Qed.

Lemma round_nearest_even_nonneg m l : 0 <= m -> 0 <= round_nearest_even m l.
Proof.
  intros Hm. unfold round_nearest_even.
  destruct l as [|[]]; try destruct (Z.even m); lia.
Qed.

Lemma binary_round_aux_not_nan sx mx ex lx :
  0 <= mx -> binary_round_aux prec emax sx mx ex lx <> S754_nan.
Proof.
  intros Hm. unfold binary_round_aux.
  pose proof (shr_fexp_nonneg mx ex lx Hm) as H1.
  destruct (shr_fexp prec emax mx ex lx) as [mrs' e']. simpl in H1.
  pose proof (shr_fexp_nonneg
                (round_nearest_even (shr_m mrs') (loc_of_shr_record mrs'))
                e' loc_Exact (round_nearest_even_nonneg _ _ H1)) as H2.
  destruct (shr_fexp prec emax _ e' loc_Exact) as [mrs'' e'']. simpl in H2.
  destruct (shr_m mrs''); [discriminate | | lia].
  destruct (e'' <=? emax - prec); discriminate.
Qed.

Lemma binary_round_not_nan sx mx ex :
  binary_round prec emax sx mx ex <> S754_nan.
Proof.
  unfold binary_round.
  destruct (shl_align mx ex _) as [mz ez].
  apply binary_round_aux_not_nan. lia.
Qed.

Lemma binary_normalize_not_nan m e szero :
  binary_normalize prec emax m e szero <> S754_nan.
Proof.
  destruct m; simpl; [discriminate | apply binary_round_not_nan ..].
Qed.

Lemma is_nan_Prim2SF f : is_nan f = true <-> Prim2SF f = S754_nan.
Proof.
  unfold Prim2SF. destruct (is_nan f); [tauto|].
  split; [discriminate|].
  destruct (is_zero f); [discriminate|].
  destruct (is_infinity f); [discriminate|].
  destruct (Z.frexp f) as [r exp].
  destruct (shr_fexp prec emax _ _ loc_Exact) as [shr e'].
  destruct (shr_m shr); discriminate.
Qed.

Lemma SF2Prim_not_nan x : x <> S754_nan -> is_nan (SF2Prim x) = false.
Proof.
  intros Hx. apply not_true_iff_false. rewrite is_nan_Prim2SF.
  destruct x as [[]|[]| |s m e]; try discriminate; [congruence|].
  unfold SF2Prim.
  assert (Hf : Prim2SF (Z.ldexp (of_uint63 (Uint63Axioms.of_Z (Zpos m))) e)
               <> S754_nan).
  { unfold Z.ldexp. rewrite ldshiftexp_spec, of_uint63_spec.
    pose proof (binary_normalize_not_nan
                  (Uint63Axioms.to_Z (Uint63Axioms.of_Z (Zpos m))) 0 false) as Hn.
    destruct (binary_normalize prec emax _ 0 false); simpl; try discriminate.
    - congruence.
    - apply binary_round_not_nan. }
  destruct s; [|exact Hf].
  rewrite opp_spec.
  destruct (Prim2SF (Z.ldexp _ e)); simpl; congruence.
Qed.

Lemma numberOfZ_not_nan z : is_nan (numberOfZ z) = false.
Proof. apply SF2Prim_not_nan, binary_normalize_not_nan. Qed.

(** [parseInt] gives [NaN] exactly for a string without a decimal digit
    behind the leading whitespace and one sign. *)
Lemma parseInt_nan_iff s :
  is_nan (parseInt s 10) = true
  <-> takeWhile isDigit (dropSign (trimStart s)) = [].
Proof.
  split.
  - rewrite parseInt_radix10.
    rewrite (takeWhile_ext _ isDigit) by apply isRadixDigit_10.
    destruct (takeWhile isDigit (dropSign (trimStart s))) as [|c t];
      [reflexivity|].
    cbv zeta. intros Hnan. exfalso. revert Hnan.
    destruct (mathInt 10 (c :: t) =? 0).
    + destruct (_ =? -1); discriminate.
    + now rewrite numberOfZ_not_nan.
  - intros Hno. rewrite parseInt_no_digits; [reflexivity|].
    rewrite (takeWhile_ext _ isDigit) by apply isRadixDigit_10. exact Hno.
Qed.

Section RouteById.

Context {tables : CaseTables}.
Variable products : list Product.

(** C3 (as amended): GET /products/:id answers 404 with the body
    [{ error: "Product not found" }] exactly when [parseInt(id, 10)] is
    [NaN] or is the id of no product, the two cases being answered alike;
    [parseInt] gives [NaN] exactly for an id without a decimal digit behind
    leading whitespace and one sign; an id that begins with digits and
    goes on with something else is answered as its leading digits are. *)
Theorem productById_not_found (idParam : jsstring) (reply : FastifyReply) :
  (productById products idParam reply
   = (mkReply 404, ErrorPayload (js "Product not found"))
   <-> is_nan (parseInt idParam 10) = true
       \/ Forall (fun q => strictEq (id q) (parseInt idParam 10) = false)
            products)
  /\ (is_nan (parseInt idParam 10) = true
      <-> takeWhile isDigit (dropSign (trimStart idParam)) = [])
  /\ (forall d c rest,
        idParam = d ++ c :: rest ->
        d <> [] -> Forall (fun x => isDigit x = true) d -> isDigit c = false ->
        productById products idParam reply = productById products d reply).
Proof.
  split; [|split].
  - split; [|apply productById_nan_or_absent].
    unfold productById, getProductById.
    destruct (find (fun p => strictEq (id p) (parseInt idParam 10)) products)
      as [p|] eqn:Hf.
    + discriminate.
    + intros _. right. now apply find_None_Forall in Hf.
  - apply parseInt_nan_iff.
  - intros d c rest -> Hne Hd Hc. unfold productById.
    rewrite (parseInt_leading_digits d (c :: rest)) by trivial.
    rewrite <- (app_nil_r d) at 3.
    rewrite (parseInt_leading_digits d []) by trivial. reflexivity.
Qed.

End RouteById.

(** *** Reading digits back *)

Lemma mathInt_fold R s acc :
  fold_left (fun a c => a * R + digitOr0 c) s acc
  = acc * R ^ Z.of_nat (length s) + mathInt R s.
Proof.
  unfold mathInt. change (fun acc c => acc * R + match digitValue c with
                                               | Some d => d | None => 0 end)
    with (fun a c => a * R + digitOr0 c).
  revert acc. induction s as [|c s IH]; intros acc.
  - simpl. lia.
  - cbn [fold_left length]. rewrite IH, (IH (0 * R + digitOr0 c)).
    rewrite Nat2Z.inj_succ, Z.pow_succ_r by lia. ring.
Qed.

Lemma mathInt_app R a b :
  mathInt R (a ++ b) = mathInt R a * R ^ Z.of_nat (length b) + mathInt R b.
Proof.
  unfold mathInt at 1. rewrite fold_left_app.
  change (fun acc c => acc * R + match digitValue c with
                                 | Some d => d | None => 0 end)
    with (fun a c => a * R + digitOr0 c).
  rewrite mathInt_fold. reflexivity.
Qed.

Lemma mathInt_zeros k : mathInt 10 (repeat 48 k) = 0.
Proof.
  induction k as [|k IH]; [reflexivity|].
  change (repeat 48 (S k)) with ([48] ++ repeat 48 k).
  rewrite mathInt_app, IH. reflexivity.
Qed.

Lemma of_uint_acc_fold u acc :
  Zpos (Pos.of_uint_acc u acc)
  = fold_left (fun a c => a * 10 + digitOr0 c)
      (js (NilEmpty.string_of_uint u)) (Zpos acc).
Proof.
  revert acc. induction u; intros acc; cbn [Pos.of_uint_acc];
    [reflexivity | rewrite IHu; cbn [NilEmpty.string_of_uint js
       list_ascii_of_string map fold_left]; f_equal;
     rewrite ?Pos2Z.inj_add, Pos2Z.inj_mul; vm_compute digitOr0; lia ..].
Qed.

Lemma of_uint_fold u :
  Z.of_N (Pos.of_uint u)
  = fold_left (fun a c => a * 10 + digitOr0 c)
      (js (NilEmpty.string_of_uint u)) 0.
Proof.
  induction u; cbn [Pos.of_uint]; [reflexivity | exact IHu | ..];
    cbn [Z.of_N]; rewrite of_uint_acc_fold; reflexivity.
Qed.

(** The digits of [n] write [n]. *)
Lemma mathInt_decimal n : 0 <= n -> mathInt 10 (decimal n) = n.
Proof.
  intros Hn. unfold decimal, NilZero.string_of_uint.
  pose proof (DecimalN.Unsigned.of_to (Z.to_N n)) as Hof.
  unfold N.of_uint in Hof.
  assert (Hv : mathInt 10 (js (NilEmpty.string_of_uint (N.to_uint (Z.to_N n)))) = n).
  { unfold mathInt.
    change (fun acc c => acc * 10 + match digitValue c with
                                    | Some d => d | None => 0 end)
      with (fun a c => a * 10 + digitOr0 c).
    rewrite <- of_uint_fold, Hof. lia. }
  destruct (N.to_uint (Z.to_N n)); exact Hv.
Qed.

(** ** More on [formatPrice] *)

(** Below 10^21 the hundredth of an amount is written in fixed notation. *)
Lemma formatPrice_fixed cents :
  (0 <=? cents)%float = true ->
  (cents / 100 <? 1e21)%float = true ->
  exists n,
    0 <= n /\ isNearestHundredth (cents / 100)%float n
    /\ formatPrice cents = Return (js "$" ++ fixedNotation n 2).
Proof.
  intros Hpos Hsmall. pose proof (hundredth_sign cents Hpos) as Hsign.
  unfold formatPrice. rewrite (not_below_zero cents Hpos).
  unfold toFixed, isNearestHundredth.
  destruct (Prim2SF (cents / 100)) as [s|s| |s m e] eqn:Hx.
  - exists 0. split; [lia|]. split; reflexivity.
  - subst s. rewrite ltb_spec, Hx, Prim2SF_1e21 in Hsmall. discriminate.
  - rewrite ltb_spec, Hx in Hsmall. discriminate.
  - subst s. rewrite (finite_below_1e21 _ _ _ Hx Hsmall).
    exists (roundScaled (Zpos m) e 2). split; [apply roundScaled_nonneg; lia|].
    split; [|reflexivity].
    pose proof (roundScaled_isNearestHundredth _ _ _ _ Hx) as Hn.
    unfold isNearestHundredth in Hn. now rewrite Hx in Hn.
Qed.

(** The two parts of an amount in fixed notation, read back as numbers. *)
Lemma fixedNotation_parts n :
  0 <= n ->
  exists a b,
    fixedNotation n 2 = a ++ js "." ++ b
    /\ a <> [] /\ Forall (fun c => isDigit c = true) a
    /\ length b = 2%nat /\ Forall (fun c => isDigit c = true) b
    /\ mathInt 10 a = n / 100 /\ mathInt 10 b = n mod 100.
Proof.
  intros Hn. unfold fixedNotation.
  set (m := repeat 48 (3 - length (decimal n)) ++ decimal n).
  assert (Hm : Forall (fun c => isDigit c = true) m).
  { apply Forall_app. split; [|apply decimal_digits].
    apply Forall_forall. intros c Hc. apply repeat_spec in Hc. now subst. }
  assert (Hk : (3 <= length m)%nat).
  { unfold m. rewrite length_app, repeat_length.
    pose proof (decimal_length n). unfold jsstring, code_unit in *. lia. }
  assert (Hv : mathInt 10 m = n).
  { unfold m. rewrite mathInt_app, mathInt_zeros, mathInt_decimal by exact Hn.
    lia. }
  set (k := length m) in *.
  exists (firstn (k - 2) m), (skipn (k - 2) m).
  pose proof Hm as Hab. rewrite <- (firstn_skipn (k - 2) m) in Hab.
  apply Forall_app in Hab. destruct Hab as [Ha Hb].
  assert (Hla : length (firstn (k - 2) m) = (k - 2)%nat)
    by (rewrite length_firstn; lia).
  assert (Hlb : length (skipn (k - 2) m) = 2%nat)
    by (rewrite length_skipn; lia).
  rewrite <- (firstn_skipn (k - 2) m), mathInt_app in Hv.
  unfold jsstring, code_unit in *. rewrite Hlb in Hv.
  assert (Hb2 : 0 <= mathInt 10 (skipn (k - 2) m) < 100).
  { destruct (skipn (k - 2) m) as [|d1 [|d2 [|d3 t]]]; try discriminate.
    apply Forall_cons_iff in Hb. destruct Hb as [H1 Hb].
    apply Forall_inv in Hb. unfold mathInt, digitValue. simpl.
    rewrite H1, Hb. class_arith. }
  change (10 ^ Z.of_nat 2) with 100 in Hv.
  split; [reflexivity|]. split.
  { intros E. rewrite E in Hla. simpl in Hla. lia. }
  split; [exact Ha|]. split; [exact Hlb|]. split; [exact Hb|].
  split.
  - apply Z.div_unique with (mathInt 10 (skipn (k - 2) m)); lia.
  - apply Z.mod_unique with (mathInt 10 (firstn (k - 2) m)); lia.
Qed.

(** X11: for an amount that is not below zero and whose hundredth is below
    10^21, [formatPrice] returns "$", the digits of [n / 100], a point and
    the two digits of [n mod 100], where [n] is the integer nearest to a
    hundred times the double [cents / 100]: read back, the string gives
    [n] cents. *)
Theorem formatPrice_reads_back cents :
  (0 <=? cents)%float = true ->
  (cents / 100 <? 1e21)%float = true ->
  exists n a b,
    formatPrice cents = Return (js "$" ++ a ++ js "." ++ b)
    /\ isNearestHundredth (cents / 100)%float n
    /\ a <> [] /\ Forall (fun c => isDigit c = true) a
    /\ length b = 2%nat /\ Forall (fun c => isDigit c = true) b
    /\ mathInt 10 a = n / 100 /\ mathInt 10 b = n mod 100.
Proof.
  intros Hpos Hsmall.
  destruct (formatPrice_fixed cents Hpos Hsmall) as (n & Hn & Hnear & Hf).
  destruct (fixedNotation_parts n Hn) as (a & b & Hab & Hrest).
  exists n, a, b. rewrite Hf, Hab. tauto.
Qed.

(** ** More on the routes *)

Section MoreRoutes.

Context {tables : CaseTables}.
Variable products : list Product.

(** X5: GET /products/by-slug/:slug either answers 404 with the error
    body, and then no product has the slug asked for, or leaves the reply
    as it is and answers with the first product that has it; the slug in
    the answer is the slug asked for. *)
Theorem productBySlug_answer (slugParam : jsstring) (reply : FastifyReply) :
  (productBySlug products slugParam reply
   = (mkReply 404, ErrorPayload (js "Product not found"))
   /\ Forall (fun q => slugify (name q) <> slugParam) products)
  \/ (exists before p after,
        products = before ++ p :: after
        /\ Forall (fun q => slugify (name q) <> slugParam) before
        /\ productBySlug products slugParam reply
           = (reply, ProductPayload (withSlug p))
        /\ slug (withSlug p) = slugParam).
Proof.
  unfold productBySlug, getProductBySlug.
  destruct (find (fun p => stringEq (slugify (name p)) slugParam) products)
    as [p|] eqn:Hf.
  - right. apply find_Some_firstMatch in Hf.
    destruct Hf as (before & after & E & Hp & Hb).
    exists before, p, after. split; [exact E|]. split.
    + eapply Forall_impl; [|exact Hb]. intros q. apply stringEq_neq.
    + split; [reflexivity|]. now apply stringEq_eq.
  - left. split; [reflexivity|]. apply find_None_Forall in Hf.
    eapply Forall_impl; [|exact Hf]. intros q. apply stringEq_neq.
Qed.

(** X6: a slug with a character outside [a-z0-9_-], or with two hyphens in
    a row, is the slug of no name: GET /products/by-slug/:slug answers 404
    for it, whatever the collection. *)
Theorem productBySlug_malformed (slugParam : jsstring) (reply : FastifyReply) :
  leavesNoUpper ->
  existsb (fun c => negb (isSlugChar c)) slugParam = true
  \/ noAdjacent isHyphen slugParam = false ->
  productBySlug products slugParam reply
  = (mkReply 404, ErrorPayload (js "Product not found")).
Proof.
  intros Hup Hbad.
  assert (Hnone : getProductBySlug products slugParam = None).
  { apply find_None_Forall. apply Forall_forall. intros q _.
    apply stringEq_neq. intros E. destruct Hbad as [Hbad|Hbad].
    - apply existsb_exists in Hbad. destruct Hbad as (c & Hc & Hn).
      rewrite <- E in Hc. apply (slugify_chars Hup) in Hc.
      now rewrite Hc in Hn.
    - rewrite <- E, slugify_noAdjacent in Hbad. discriminate. }
  unfold productBySlug. now rewrite Hnone.
Qed.

(** X7: every product listed by GET /products is found again under its
    slug: GET /products/by-slug/ with the slug of a listed product answers
    with a listed product of that slug, and with the very same product
    when the listed slugs are pairwise distinct. *)
Theorem listed_slug_resolves (reply0 reply : FastifyReply) views v :
  listProducts products reply0 = (reply0, ProductsPayload views) ->
  In v views ->
  exists w,
    productBySlug products (slug v) reply = (reply, ProductPayload w)
    /\ In w views /\ slug w = slug v
    /\ (NoDup (map slug views) -> w = v).
Proof.
  unfold listProducts, getProducts. intros [= <-] Hv.
  apply in_map_iff in Hv. destruct Hv as (p & <- & Hp).
  set (f := fun q => stringEq (slugify (name q)) (slugify (name p))).
  assert (Hfp : f p = true) by now apply stringEq_eq.
  destruct (find_member f products p Hp Hfp) as (q & Hq & Hfq & Hqin).
  exists (withSlug q). unfold productBySlug, getProductBySlug.
  change (slug (withSlug p)) with (slugify (name p)).
  change (fun p0 : Product => stringEq (slugify (name p0)) (slugify (name p)))
    with f.
  rewrite Hq. apply stringEq_eq in Hfq. split; [reflexivity|].
  split; [now apply in_map|]. split; [exact Hfq|].
  intros Hnd. rewrite map_map in Hnd. cbn [slug withSlug] in Hnd.
  assert (Hfind : find f products = Some p).
  { apply (find_unique_key (fun r => slugify (name r))); trivial.
    intros y _ Hy. now apply stringEq_eq. }
  congruence.
Qed.

(** X8: GET /products/:id either answers 404 with the error body, and then
    no product has the number parsed from the id, or leaves the reply as
    it is and answers with the first product whose id is that number. *)
Theorem productById_answer (idParam : jsstring) (reply : FastifyReply) :
  (productById products idParam reply
   = (mkReply 404, ErrorPayload (js "Product not found"))
   /\ Forall (fun q => strictEq (id q) (parseInt idParam 10) = false) products)
  \/ (exists before p after,
        products = before ++ p :: after
        /\ Forall (fun q => strictEq (id q) (parseInt idParam 10) = false)
             before
        /\ strictEq (id p) (parseInt idParam 10) = true
        /\ productById products idParam reply
           = (reply, ProductPayload (withSlug p))).
Proof.
  unfold productById, getProductById.
  destruct (find (fun p => strictEq (id p) (parseInt idParam 10)) products)
    as [p|] eqn:Hf.
  - right. apply find_Some_firstMatch in Hf.
    destruct Hf as (before & after & E & Hp & Hb).
    exists before, p, after. auto.
  - left. split; [reflexivity|]. now apply find_None_Forall in Hf.
Qed.

(** X9: a product whose id is the integer [n >= 0], the first with that
    id, is served at /products/ followed by [n] in decimal. *)
Theorem productById_decimal (n : Z) (p : Product) (reply : FastifyReply) :
  0 <= n ->
  firstMatch (fun q => strictEq (id q) (numberOfZ n)) products p ->
  productById products (decimal n) reply
  = (reply, ProductPayload (withSlug p)).
Proof.
  intros Hn Hp. apply find_Some_firstMatch in Hp.
  assert (Hparse : parseInt (decimal n) 10 = numberOfZ n).
  { rewrite <- (app_nil_r (decimal n)), parseInt_leading_digits.
    - rewrite mathInt_decimal by exact Hn.
      destruct (Z.eqb_spec n 0) as [->|_]; reflexivity.
    - pose proof (decimal_length n) as Hl. intros E. rewrite E in Hl.
      simpl in Hl. lia.
    - apply decimal_digits.
    - exact I. }
  unfold productById, getProductById. now rewrite Hparse, Hp.
Qed.

(** X10: what follows the leading digits of the id is ignored:
    /products/12abc is answered as /products/12. *)
Theorem productById_trailing (d rest : jsstring) (c : code_unit)
  (reply : FastifyReply) :
  d <> [] -> Forall (fun x => isDigit x = true) d -> isDigit c = false ->
  productById products (d ++ c :: rest) reply = productById products d reply.
Proof.
  intros Hne Hd Hc. unfold productById.
  rewrite (parseInt_leading_digits d (c :: rest)) by trivial.
  rewrite <- (app_nil_r d) at 3.
  rewrite (parseInt_leading_digits d []) by trivial. reflexivity.
Qed.

(** X13: an id that does not begin, after whitespace and one sign, with a
    decimal digit is answered 404, whatever the collection. *)
Theorem productById_no_digits (idParam : jsstring) (reply : FastifyReply) :
  takeWhile isDigit (dropSign (trimStart idParam)) = [] ->
  productById products idParam reply
  = (mkReply 404, ErrorPayload (js "Product not found")).
Proof.
  intros Hno.
  assert (Hnan : parseInt idParam 10 = nan).
  { apply parseInt_no_digits.
    rewrite (takeWhile_ext _ isDigit) by apply isRadixDigit_10. exact Hno. }
  assert (Hnone : getProductById products (parseInt idParam 10) = None).
  { apply find_None_Forall. apply Forall_forall. intros q _.
    apply strictEq_nan_r. now rewrite Hnan. }
  unfold productById. now rewrite Hnone.
Qed.

(** X14: whitespace in front of the id is ignored. *)
Theorem productById_leading_space (w idParam : jsstring)
  (reply : FastifyReply) :
  Forall (fun c => isWhiteSpace c = true) w ->
  productById products (w ++ idParam) reply
  = productById products idParam reply.
Proof.
  intros Hw.
  assert (Hparse : parseInt (w ++ idParam) 10 = parseInt idParam 10).
  { unfold parseInt, trimStart. now rewrite dropWhile_app_all. }
  unfold productById. now rewrite Hparse.
Qed.

End MoreRoutes.

(** ** The further properties at the fixture *)

Lemma slugify_image_witness :
  (exists text, @slugify asciiLowerCase text = js "mics-pro-20")
  <-> (forall c, In c (js "mics-pro-20") -> isSlugChar c = true)
      /\ noAdjacent isHyphen (js "mics-pro-20") = true.
Proof.
  exact (@slugify_image asciiLowerCase asciiLowerCase_lowersAscii
           asciiLowerCase_leavesNoUpper (js "mics-pro-20")).
Defined.

Lemma slugify_ascii_case_witness :
  @slugify asciiLowerCase (js "Wireless Mouse")
  = @slugify asciiLowerCase (js "wireless mouse").
Proof.
  apply (@slugify_ascii_case asciiLowerCase asciiLowerCase_lowersAscii);
    try reflexivity;
    intros c Hc; vm_compute in Hc;
    repeat (destruct Hc as [<-|Hc]; [reflexivity|]); destruct Hc.
Defined.

Lemma formatPrice_reads_back_witness :
  exists n a b,
    formatPrice 1999%float = Return (js "$" ++ a ++ js "." ++ b)
    /\ isNearestHundredth (1999 / 100)%float n
    /\ a <> [] /\ Forall (fun c => isDigit c = true) a
    /\ length b = 2%nat /\ Forall (fun c => isDigit c = true) b
    /\ mathInt 10 a = n / 100 /\ mathInt 10 b = n mod 100.
Proof.
  apply (formatPrice_reads_back 1999%float); reflexivity.
Defined.

Lemma productBySlug_malformed_witness :
  @productBySlug asciiLowerCase fixture (js "Gadget") freshReply
  = (mkReply 404, ErrorPayload (js "Product not found")).
Proof.
  apply (@productBySlug_malformed asciiLowerCase fixture (js "Gadget")
           freshReply asciiLowerCase_leavesNoUpper).
  left. reflexivity.
Defined.

Lemma listed_slug_resolves_witness :
  exists w,
    @productBySlug asciiLowerCase fixture (js "gadget") freshReply
    = (freshReply, ProductPayload w)
    /\ In w (map (@withSlug asciiLowerCase) fixture)
    /\ slug w = js "gadget"
    /\ (NoDup (map slug (map (@withSlug asciiLowerCase) fixture)) ->
        w = mkProductResponse 2%float (js "Gadget") 0%float false
              (js "gadget")).
Proof.
  apply (@listed_slug_resolves asciiLowerCase fixture freshReply freshReply
           (map (@withSlug asciiLowerCase) fixture)
           (mkProductResponse 2%float (js "Gadget") 0%float false
              (js "gadget"))).
  - reflexivity.
  - right. left. reflexivity.
Defined.

Lemma productById_decimal_witness :
  @productById asciiLowerCase fixture (decimal 2) freshReply
  = (freshReply,
     ProductPayload
       (@withSlug asciiLowerCase
          (mkProduct 2%float (js "Gadget") 0%float false))).
Proof.
  apply (@productById_decimal asciiLowerCase fixture 2); [lia|].
  exists [mkProduct 1%float (js "Widget") 500%float true], [].
  split; [reflexivity|]. split; [reflexivity|].
  constructor; [reflexivity | constructor].
Defined.

Lemma productById_trailing_witness :
  @productById asciiLowerCase fixture (js "2" ++ 97 :: js "bc") freshReply
  = @productById asciiLowerCase fixture (js "2") freshReply.
Proof.
  apply (@productById_trailing asciiLowerCase fixture (js "2") (js "bc") 97).
  - discriminate.
  - constructor; [reflexivity | constructor].
  - reflexivity.
Defined.

Lemma productById_no_digits_witness :
  @productById asciiLowerCase fixture (js " -x1") freshReply
  = (mkReply 404, ErrorPayload (js "Product not found")).
Proof.
  apply (@productById_no_digits asciiLowerCase fixture (js " -x1")).
  reflexivity.
Defined.

Lemma productById_leading_space_witness :
  @productById asciiLowerCase fixture (js "  " ++ js "1") freshReply
  = @productById asciiLowerCase fixture (js "1") freshReply.
Proof.
  apply (@productById_leading_space asciiLowerCase fixture (js "  ") (js "1")).
  constructor; [reflexivity|]. constructor; [reflexivity | constructor].
Defined.

(** C3 (as stated) fails for an id that begins with digits without being
    an integer: "2abc" and "1.9" are answered 200 with the product of
    their leading digits. *)
Lemma productById_digits_then_letters :
  @productById asciiLowerCase fixture (js "2abc") freshReply
  = (mkReply 200,
     ProductPayload
       (mkProductResponse 2%float (js "Gadget") 0%float false (js "gadget")))
  /\ @productById asciiLowerCase fixture (js "1.9") freshReply
     = (mkReply 200,
        ProductPayload
          (mkProductResponse 1%float (js "Widget") 500%float true
             (js "widget"))).
Proof. split; vm_compute; reflexivity. Qed.

Lemma productById_not_found_witness :
  @productById asciiLowerCase fixture (js "abc") freshReply
  = (mkReply 404, ErrorPayload (js "Product not found"))
  /\ @productById asciiLowerCase fixture (js "99") freshReply
     = (mkReply 404, ErrorPayload (js "Product not found"))
  /\ @productById asciiLowerCase fixture (js "2" ++ 46 :: js "5") freshReply
     = @productById asciiLowerCase fixture (js "2") freshReply.
Proof.
  split; [|split].
  - pose proof (@productById_not_found asciiLowerCase fixture (js "abc")
                  freshReply) as (H404 & Hnan & _).
    apply H404. left. apply Hnan. reflexivity.
  - pose proof (@productById_not_found asciiLowerCase fixture (js "99")
                  freshReply) as (H404 & _).
    apply H404. right. repeat constructor.
  - pose proof (@productById_not_found asciiLowerCase fixture
                  (js "2" ++ 46 :: js "5") freshReply) as (_ & _ & Hlead).
    apply (Hlead (js "2") 46 (js "5")).
    + reflexivity.
    + discriminate.
    + constructor; [reflexivity | constructor].
    + reflexivity.
Defined.
